(** * BoarBot: lifecycle controller, poller, startup sweeps and log reporting

    A shallow embedding of [bot/BoarBot.ts] and [util/logging/LogDebug.ts].
    Synchronous and awaited code is a program in a small monad with state
    (the process and its disk), exceptions, process exit and a log of every
    externally visible action, in the order in which they happen.  A call
    whose promise is dropped (not awaited) runs in [detached] mode, where a
    rejection never reaches the enclosing [try]/[catch].  Collaborators
    that live outside these two files (the Discord client, the HTTP client,
    [DataHandlers], [InteractionUtils], [ConfigHandler]) answer through an
    environment record; the keyed task queue is modelled on its own. *)

From Stdlib Require Import ZArith String Ascii List Lia Bool FinFun.
From stdpp Require Import base option gmap list strings pretty.
Import ListNotations.

Local Open Scope string_scope.
Local Open Scope list_scope.
Local Open Scope nat_scope.

(* ===================================================================== *)
(** * The keyed task queue ([util/interactions/Queue]) *)
(* ===================================================================== *)

Module Queue.

(** Observable life of a unit of work [w] enqueued under key [k]. *)
Inductive Event :=
| Began (k : string) (w : nat)
| Ended (k : string) (w : nat) (ok : bool).

(** What can happen to the queue: a caller enqueues work [w] under [k],
    or the work currently running under [k] settles (resolves when [ok],
    rejects otherwise).  The order of these actions is the schedule
    chosen by the event loop. *)
Inductive Action :=
| Enqueue (k : string) (w : nat)
| Settle (k : string) (ok : bool).

(** Modelled from the spec: the Queue class itself is missing from the
    sources (only its caller [BoarBot.onStart] is present).  The queue
    "maintains a mapping from key to a chain"; the chain of a key is kept
    here as the list of units not yet settled, whose head is the one that
    is running. *)
Record State := mkState {
  chains : gmap string (list nat);
  log : list Event
}.

Definition init : State := mkState ∅ [].

(** Modelled from the spec: "if no chain exists for key, the work begins
    immediately ... If a chain exists, the new work is scheduled to begin
    only after the existing chain settles". *)
Definition enqueue (k : string) (w : nat) (s : State) : State :=
  match chains s !! k with
  | None => mkState (<[k := [w]]> (chains s)) (log s ++ [Began k w])
  | Some ws => mkState (<[k := ws ++ [w]]> (chains s)) (log s)
  end.

(** Modelled from the spec: the successor begins when its predecessor
    settles, "regardless of whether the prior work succeeded or failed".
    Settling is only possible for a key that has running work. *)
Definition settle (k : string) (ok : bool) (s : State) : option State :=
  match chains s !! k with
  | None | Some [] => None
  | Some [w] => Some (mkState (delete k (chains s)) (log s ++ [Ended k w ok]))
  | Some (w :: (w' :: _) as rest) =>
      Some (mkState (<[k := rest]> (chains s))
                    (log s ++ [Ended k w ok; Began k w']))
  end.

Definition step (a : Action) (s : State) : option State :=
  match a with
  | Enqueue k w => Some (enqueue k w s)
  | Settle k ok => settle k ok s
  end.

Fixpoint run (acts : list Action) (s : State) : option State :=
  match acts with
  | [] => Some s
  | a :: acts' =>
      match step a s with
      | Some s' => run acts' s'
      | None => None
      end
  end.

(** Projections used to state the guarantees. *)
Definition event_key (e : Event) : string :=
  match e with Began k _ | Ended k _ _ => k end.

Definition on_key (k : string) (l : list Event) : list Event :=
  List.filter (fun e => bool_decide (event_key e = k)) l.

Fixpoint enqueued (k : string) (acts : list Action) : list nat :=
  match acts with
  | [] => []
  | Enqueue k' w :: acts' =>
      if bool_decide (k' = k) then w :: enqueued k acts' else enqueued k acts'
  | Settle _ _ :: acts' => enqueued k acts'
  end.

Fixpoint settled (k : string) (acts : list Action) : list bool :=
  match acts with
  | [] => []
  | Settle k' ok :: acts' =>
      if bool_decide (k' = k) then ok :: settled k acts' else settled k acts'
  | Enqueue _ _ :: acts' => settled k acts'
  end.

Fixpoint began (l : list Event) : list nat :=
  match l with
  | [] => []
  | Began _ w :: l' => w :: began l'
  | Ended _ _ _ :: l' => began l'
  end.

Fixpoint ended (l : list Event) : list nat :=
  match l with
  | [] => []
  | Began _ _ :: l' => ended l'
  | Ended _ w _ :: l' => w :: ended l'
  end.

(** [exclusive cur l]: scanning [l], a unit begins only while nothing is
    running and a unit ends only if it is the one running. *)
Fixpoint exclusive (cur : option nat) (l : list Event) : bool :=
  match l with
  | [] => true
  | Began _ w :: l' =>
      match cur with
      | None => exclusive (Some w) l'
      | Some _ => false
      end
  | Ended _ w _ :: l' =>
      match cur with
      | Some w' => Nat.eqb w w' && exclusive None l'
      | None => false
      end
  end.

(** The strictly sequential log of units [ws] of which the first
    [length outs] have settled with outcomes [outs]. *)
Fixpoint serial (k : string) (ws : list nat) (outs : list bool) : list Event :=
  match ws, outs with
  | [], _ => []
  | w :: _, [] => [Began k w]
  | w :: ws', ok :: outs' => Began k w :: Ended k w ok :: serial k ws' outs'
  end.

(** The chain stored for a key after [n] of the units [ws] enqueued under
    it have settled: the units not yet settled, if any. *)
Definition pending (ws : list nat) (n : nat) : option (list nat) :=
  match drop n ws with
  | [] => None
  | r => Some r
  end.

(** The event that follows the end of a unit whose chain goes on with [r]. *)
Definition successor (k : string) (r : list nat) : list Event :=
  match r with [] => [] | w :: _ => [Began k w] end.

End Queue.

(* ===================================================================== *)
(** * SHA-256, as computed by [crypto.createHash('sha256')]
      ([update] with the whole buffer, [digest('hex')]) *)
(* ===================================================================== *)

Module Sha256.
Local Open Scope Z_scope.

(** 32-bit words are integers reduced modulo [2^32]. *)
Definition wrap (x : Z) : Z := x mod 4294967296.
Definition add32 (x y : Z) : Z := wrap (x + y).
Definition rotr (n x : Z) : Z :=
  Z.lor (Z.shiftr x n) (wrap (Z.shiftl x (32 - n))).
Definition not32 (x : Z) : Z := 4294967295 - x.

Definition Ch (x y z : Z) : Z := Z.lxor (Z.land x y) (Z.land (not32 x) z).
Definition Maj (x y z : Z) : Z :=
  Z.lxor (Z.lxor (Z.land x y) (Z.land x z)) (Z.land y z).
Definition Sigma0 (x : Z) : Z :=
  Z.lxor (Z.lxor (rotr 2 x) (rotr 13 x)) (rotr 22 x).
Definition Sigma1 (x : Z) : Z :=
  Z.lxor (Z.lxor (rotr 6 x) (rotr 11 x)) (rotr 25 x).
Definition sigma0 (x : Z) : Z :=
  Z.lxor (Z.lxor (rotr 7 x) (rotr 18 x)) (Z.shiftr x 3).
Definition sigma1 (x : Z) : Z :=
  Z.lxor (Z.lxor (rotr 17 x) (rotr 19 x)) (Z.shiftr x 10).

(** The round constants are the first 32 bits of the fractional parts of
    the cube roots of the first 64 primes; the initial chaining values are
    those of the square roots of the first 8 primes. *)
Definition primes : list Z :=
  [ 2; 3; 5; 7; 11; 13; 17; 19; 23; 29; 31; 37; 41; 43; 47; 53;
    59; 61; 67; 71; 73; 79; 83; 89; 97; 101; 103; 107; 109; 113; 127; 131;
    137; 139; 149; 151; 157; 163; 167; 173; 179; 181; 191; 193; 197; 199;
    211; 223; 227; 229; 233; 239; 241; 251; 257; 263; 269; 271; 277; 281;
    283; 293; 307; 311 ].

(** Integer cube root, one bit at a time from bit [bits - 1] down. *)
Fixpoint cbrt_from (bits : nat) (n r : Z) : Z :=
  match bits with
  | O => r
  | S b =>
      let c := r + 2 ^ Z.of_nat b in
      if c * c * c <=? n then cbrt_from b n c else cbrt_from b n r
  end.

Definition frac_cbrt32 (p : Z) : Z := wrap (cbrt_from 40 (p * 2 ^ 96) 0).
Definition frac_sqrt32 (p : Z) : Z := wrap (Z.sqrt (p * 2 ^ 64)).

Definition K : list Z := Eval vm_compute in List.map frac_cbrt32 primes.

(** The eight working variables / chaining values. *)
Record Regs := mkRegs { ra : Z; rb : Z; rc : Z; rd : Z;
                        re : Z; rf : Z; rg : Z; rh : Z }.

Definition H0 : Regs :=
  Eval vm_compute in
    mkRegs (frac_sqrt32 2) (frac_sqrt32 3) (frac_sqrt32 5) (frac_sqrt32 7)
           (frac_sqrt32 11) (frac_sqrt32 13) (frac_sqrt32 17) (frac_sqrt32 19).

(** Padding: a [0x80] byte, zeros up to 56 modulo 64, then the bit length
    as a 64-bit big-endian integer. *)
Definition be_bytes (n : nat) (x : Z) : list Z :=
  List.map (fun i => Z.land (Z.shiftr x (8 * Z.of_nat i)) 255) (rev (seq 0 n)).

Definition pad (msg : list Z) : list Z :=
  let len := Z.of_nat (length msg) in
  let zeros := Z.to_nat ((55 - len) mod 64) in
  msg ++ [128] ++ repeat 0 zeros ++ be_bytes 8 (8 * len).

Fixpoint be_words (fuel : nat) (bs : list Z) : list Z :=
  match fuel, bs with
  | S fuel', b0 :: b1 :: b2 :: b3 :: rest =>
      (b0 * 16777216 + b1 * 65536 + b2 * 256 + b3) :: be_words fuel' rest
  | _, _ => []
  end.

(** Message schedule; [recent] holds the words computed so far, newest
    first. *)
Fixpoint expand (n : nat) (recent : list Z) : list Z :=
  match n with
  | O => recent
  | S n' =>
      let w := add32 (add32 (sigma1 (nth 1 recent 0)) (nth 6 recent 0))
                     (add32 (sigma0 (nth 14 recent 0)) (nth 15 recent 0)) in
      expand n' (w :: recent)
  end.

Definition schedule (block : list Z) : list Z :=
  rev (expand 48 (rev (be_words 16 block))).

Definition round (r : Regs) (kw : Z * Z) : Regs :=
  let t1 := add32 (add32 (add32 (rh r) (Sigma1 (re r)))
                         (add32 (Ch (re r) (rf r) (rg r)) (fst kw)))
                  (snd kw) in
  let t2 := add32 (Sigma0 (ra r)) (Maj (ra r) (rb r) (rc r)) in
  mkRegs (add32 t1 t2) (ra r) (rb r) (rc r)
         (add32 (rd r) t1) (re r) (rf r) (rg r).

Definition compress (h : Regs) (block : list Z) : Regs :=
  let r := fold_left round (combine K (schedule block)) h in
  mkRegs (add32 (ra h) (ra r)) (add32 (rb h) (rb r))
         (add32 (rc h) (rc r)) (add32 (rd h) (rd r))
         (add32 (re h) (re r)) (add32 (rf h) (rf r))
         (add32 (rg h) (rg r)) (add32 (rh h) (rh r)).

Fixpoint blocks (fuel : nat) (bs : list Z) (h : Regs) : Regs :=
  match fuel, bs with
  | S fuel', _ :: _ => blocks fuel' (skipn 64 bs) (compress h (firstn 64 bs))
  | _, _ => h
  end.

Definition hash (msg : list Byte.byte) : Regs :=
  let bs := pad (List.map (fun b => Z.of_N (Byte.to_N b)) msg) in
  blocks (length bs) bs H0.

(** [digest('hex')]: lowercase hexadecimal, two digits per byte. *)
Definition hexdigits : list ascii :=
  list_ascii_of_string "0123456789abcdef".

Definition nibble (x : Z) : ascii :=
  nth (Z.to_nat (x mod 16)) hexdigits "0"%char.

Definition hex8 (x : Z) : list ascii :=
  [ nibble (Z.shiftr x 28); nibble (Z.shiftr x 24); nibble (Z.shiftr x 20);
    nibble (Z.shiftr x 16); nibble (Z.shiftr x 12); nibble (Z.shiftr x 8);
    nibble (Z.shiftr x 4); nibble x ].

Definition hex_of_regs (r : Regs) : string :=
  string_of_list_ascii
    (hex8 (ra r) ++ hex8 (rb r) ++ hex8 (rc r) ++ hex8 (rd r) ++
     hex8 (re r) ++ hex8 (rf r) ++ hex8 (rg r) ++ hex8 (rh r)).

Definition hexdigest (msg : list Byte.byte) : string :=
  hex_of_regs (hash msg).



End Sha256.

(* ===================================================================== *)
(** * JavaScript values and string operations used by the sources *)
(* ===================================================================== *)

Module Js.

(** A thrown value, as far as [LogDebug.handleError] can tell them apart:
    a string, an object (an [Error] carries a [stack]; any other object or
    primitive has none), or [null]/[undefined]. *)
Inductive Thrown :=
| ThrownString (s : string)
| ThrownError (stack : option string)
| ThrownNullish.

Definition syntaxError : Thrown :=
  ThrownError (Some "SyntaxError: Unexpected token in JSON").
Definition typeError (what : string) : Thrown :=
  ThrownError (Some ("TypeError: Cannot read properties of " +:+ what)).
Definition fsError (code : string) : Thrown :=
  ThrownError (Some ("Error: " +:+ code)).

(** [x + s] where [x] may be [undefined]. *)
Definition text (x : option string) : string :=
  match x with Some s => s | None => "undefined" end.

(** [s.replace(pat, rep)] for a string pattern: the first occurrence only.
    ([rep] is taken literally; the sources pass user names, command names
    and the empty string.) *)
Fixpoint replace (pat rep s : string) : string :=
  if String.prefix pat s
  then rep +:+ String.substring (String.length pat) (String.length s) s
  else match s with
       | EmptyString => EmptyString
       | String c s' => String c (replace pat rep s')
       end.

(** [s.substring(0, n)]. *)
Definition substring0 (n : nat) (s : string) : string :=
  String.substring 0 n s.

(** [s.split(c)[0]]: the text before the first [c]. *)
Fixpoint before (c : ascii) (s : string) : string :=
  match s with
  | EmptyString => EmptyString
  | String d s' => if Ascii.eqb c d then EmptyString else String d (before c s')
  end.

(** What [JSON.parse] returns.  Object members are kept in an association
    list, of which [member] reads the last binding of a name; numbers are
    kept as integers (of a number, the code only tests whether it is zero). *)
#[local] Unset Elimination Schemes.
Inductive Json :=
| JNull
| JBool (b : bool)
| JNum (z : Z)
| JStr (s : string)
| JArr (items : list Json)
| JObj (members : list (string * Json)).
#[local] Set Elimination Schemes.

Fixpoint member (name : string) (ms : list (string * Json)) : option Json :=
  match ms with
  | [] => None
  | (n, v) :: ms' =>
      match member name ms' with
      | Some v' => Some v'
      | None => if String.eqb n name then Some v else None
      end
  end.

(** [v.name]: [None] stands for [undefined]; reading a property of [null]
    throws. *)
Definition property (name : string) (v : Json) : Thrown + option Json :=
  match v with
  | JNull => inl (typeError "null")
  | JObj ms => inr (member name ms)
  | _ => inr None
  end.

(** Truthiness, as tested by [if (x)]. *)
Definition truthy (x : option Json) : bool :=
  match x with
  | None | Some JNull => false
  | Some (JBool b) => b
  | Some (JNum z) => negb (Z.eqb z 0)
  | Some (JStr s) => negb (String.eqb s EmptyString)
  | Some (JArr _) | Some (JObj _) => true
  end.

End Js.

(* ===================================================================== *)
(** * Data model *)
(* ===================================================================== *)

(** The parts of [BotConfig] that the two source files read. *)
Record BotConfig := mkBotConfig {
  debugMode : bool;
  logChannel : string;
  updatesChannel : string;
  defaultChannel : string;
  commandDebugPrefix : string;
  errorString : string;
  pullLink : string;
  githubImg : string;
  colorError : string;
  colorDark : string;
  oneDay : Z;
  databaseFolder : string;
  guildDataFolder : string;
  userDataFolder : string;
  globalDataFolder : string;
  githubFileName : string
}.

Record GitHubData := mkGitHubData { lastURL : string }.
Record PowerupData := mkPowerupData { nextPowerup : Z }.
Record QuestData := mkQuestData { questsStartTimestamp : Z }.

(** First element of the pull-request listing; [merged_at] and [body] are
    [null] for an unmerged request and for an empty description. *)
Record PullRequest := mkPullRequest {
  html_url : string;
  merged_at : option string;
  title : string;
  body : option string
}.

Record Embed := mkEmbed {
  embedColor : string;
  embedTitle : string;
  embedURL : string;
  embedDescription : string;
  embedThumbnail : string
}.

(** A text channel; [sendError] is what [send] rejects with, if it does. *)
Record Channel := mkChannel {
  channelId : string;
  sendError : option Js.Thrown
}.

(** Result of [InteractionUtils.getTextChannel]. *)
Inductive Lookup :=
| Found (c : Channel)
| Missing
| LookupFailed (e : Js.Thrown).

Inductive InteractionKind :=
| ChatInput | Autocomplete | MessageComponent | ModalSubmit.

Record Interaction := mkInteraction {
  kind : InteractionKind;
  userName : string;
  userId : string;
  commandName : string;
  subcommand : option string;   (* [options.getSubcommand()] throws on [None] *)
  customId : string;
  replyError : option Js.Thrown (* what [Replies.handleReply] rejects with *)
}.

(** A direct message received by the bot; [msgChannel] is the channel it
    came through, in which [message.reply] sends its answer. *)
Record Message := mkMessage {
  authorName : string;
  authorId : string;
  content : string;
  msgChannel : Channel
}.

(** Outcome of [client.users.fetch(id)], whose promise the caller drops. *)
Inductive FetchResult :=
| FetchResolves
| FetchRejects (e : Js.Thrown)
| FetchThrows (e : Js.Thrown).

(** A file of the guild data folder, as [JSON.parse] sees its text. *)
Inductive FileContent :=
| Malformed
| Parsed (v : Js.Json).

Record Disk := mkDisk {
  configJson : option (list Byte.byte);
  databaseDir : bool;
  guildDir : option (list (string * FileContent));
  userDir : option (list string);
  githubFile : option GitHubData;
  writable : bool
}.

Record Spawner := mkSpawner { countdown : Z; spawning : bool }.

(** Mutable state of the process. *)
Record World := mkWorld {
  disk : Disk;
  config : BotConfig;
  configHash : string;
  powSpawner : option Spawner
}.

(** What the collaborators outside the two files answer. *)
Record Env := mkEnv {
  clientReady : bool;
  getTextChannel : string → Lookup;
  localeTime : string;
  dateNow : Z;
  listenerCount : N;
  configFromFile : list Byte.byte → Js.Thrown + BotConfig;
  axiosGet : string → Js.Thrown + list PullRequest;
  getPowerups : Js.Thrown + PowerupData;
  getQuest : Js.Thrown + QuestData;
  usersFetch : string → FetchResult
}.

Inductive GlobalFile := Powerups | Quest.

(** Externally visible actions, in the order in which they happen. *)
Inductive Event :=
| ConsoleLog (line : string)
| Logged (message : string) (mirror : bool)
| ChannelText (channel content : string) (delivered : bool)
| ChannelEmbed (channel : string) (embed : Embed) (delivered : bool)
| InteractionReply (content color : string)
| UnhandledRejection (e : Js.Thrown)
| ListenerAdded (name : string)
| CronStarted (pattern : string)
| IntervalStarted (ms : Z)
| LoadConfig (firstLoad : bool)
| HttpGet (url : string)
| FileWritten (path : string)
| FileRemoved (path : string)
| DirCreated (path : string)
| GlobalRead (file : GlobalFile)
| QuestDataUpdated
| QueueBegan (key : string)
| QueueEnded (key : string)
| SpawnerCreated (initial : Z)
| SpawnerStarted
| PresenceSet
| UserFetch (id : string)
| Slept (ms : Z).

(* ===================================================================== *)
(** * Programs: state, exceptions, process exit and an event log *)
(* ===================================================================== *)

Module Eff.

Inductive Outcome (A : Type) :=
| Returned (a : A)
| Raised (e : Js.Thrown)
| Exited (code : Z).
Arguments Returned {A} a.
Arguments Raised {A} e.
Arguments Exited {A} code.

Record Result (A : Type) := mkResult {
  out : Outcome A;
  after : World;
  emitted : list Event
}.
Arguments mkResult {A} out after emitted.
Arguments out {A} r.
Arguments after {A} r.
Arguments emitted {A} r.

Definition Prog (A : Type) : Type := World → Result A.

Definition ret {A} (a : A) : Prog A := fun w => mkResult (Returned a) w [].
Definition raise {A} (e : Js.Thrown) : Prog A := fun w => mkResult (Raised e) w [].
Definition exit {A} (code : Z) : Prog A := fun w => mkResult (Exited code) w [].
Definition emit (e : Event) : Prog unit := fun w => mkResult (Returned tt) w [e].
Definition get : Prog World := fun w => mkResult (Returned w) w [].
Definition put (w : World) : Prog unit := fun _ => mkResult (Returned tt) w [].

Definition bind {A B} (m : Prog A) (k : A → Prog B) : Prog B :=
  fun w =>
    match m w with
    | mkResult (Returned a) w1 ev1 =>
        match k a w1 with
        | mkResult o w2 ev2 => mkResult o w2 (ev1 ++ ev2)
        end
    | mkResult (Raised e) w1 ev1 => mkResult (Raised e) w1 ev1
    | mkResult (Exited c) w1 ev1 => mkResult (Exited c) w1 ev1
    end.

(** [try { m } catch (e) { h e }]. *)
Definition try_catch {A} (m : Prog A) (h : Js.Thrown → Prog A) : Prog A :=
  fun w =>
    match m w with
    | mkResult (Raised e) w1 ev1 =>
        match h e w1 with
        | mkResult o w2 ev2 => mkResult o w2 (ev1 ++ ev2)
        end
    | r => r
    end.

(** A call whose promise is dropped: the caller goes on, and a rejection
    surfaces as an unhandled rejection instead of reaching any handler of
    the caller. *)
Definition detached {A} (m : Prog A) : Prog unit :=
  fun w =>
    match m w with
    | mkResult (Returned _) w1 ev1 => mkResult (Returned tt) w1 ev1
    | mkResult (Raised e) w1 ev1 =>
        mkResult (Returned tt) w1 (ev1 ++ [UnhandledRejection e])
    | mkResult (Exited c) w1 ev1 => mkResult (Exited c) w1 ev1
    end.

(** An operation that throws or yields a value. *)
Definition lift {A} (x : Js.Thrown + A) : Prog A :=
  match x with
  | inl e => raise e
  | inr a => ret a
  end.

(** [for (const x of xs) { body x }]. *)
Fixpoint for_each {A} (xs : list A) (body : A → Prog unit) : Prog unit :=
  match xs with
  | [] => ret tt
  | x :: xs' => bind (body x) (fun _ => for_each xs' body)
  end.

End Eff.

Declare Scope prog_scope.
Delimit Scope prog_scope with prog.
Notation "x <- m ;; k" := (Eff.bind m (fun x => k))
  (at level 100, m at next level, right associativity) : prog_scope.
Notation "m ;; k" := (Eff.bind m (fun _ => k))
  (at level 100, right associativity) : prog_scope.
Local Open Scope prog_scope.

(* ===================================================================== *)
(** * Discord collaborators, as the two files call them *)
(* ===================================================================== *)

Module Discord.
Import Eff.

(** [await InteractionUtils.getTextChannel(id)]. *)
Definition textChannel (env : Env) (id : string) : Prog (option Channel) :=
  match getTextChannel env id with
  | Found c => ret (Some c)
  | Missing => ret None
  | LookupFailed e => raise e
  end.

(** [channel.send(content)], awaited. *)
Definition sendText (c : Channel) (content : string) : Prog unit :=
  match sendError c with
  | None => emit (ChannelText (channelId c) content true)
  | Some e => emit (ChannelText (channelId c) content false) ;; raise e
  end.

(** [channel.send({ embeds: [embed] })], awaited. *)
Definition sendEmbed (c : Channel) (e : Embed) : Prog unit :=
  match sendError c with
  | None => emit (ChannelEmbed (channelId c) e true)
  | Some err => emit (ChannelEmbed (channelId c) e false) ;; raise err
  end.

(** [Replies.handleReply(interaction, content, color)], awaited. *)
Definition handleReply (i : Interaction) (content color : string) : Prog unit :=
  emit (InteractionReply content color) ;;
  match replyError i with
  | None => ret tt
  | Some e => raise e
  end.

End Discord.

(* ===================================================================== *)
(** * [util/logging/LogDebug.ts] *)
(* ===================================================================== *)

Module LogDebug.
Import Eff.

Definition esc : string := String (Ascii.ascii_of_nat 27) EmptyString.
Definition nl : string := String (Ascii.ascii_of_nat 10) EmptyString.

(** [enum Colors]. *)
Definition White : string := esc +:+ "[0m".
Definition Yellow : string := esc +:+ "[33m".
Definition Grey : string := esc +:+ "[90m".
Definition Green : string := esc +:+ "[32m".
Definition Blue : string := esc +:+ "[34m".

(** What is thrown by [(err as Error).stack] when [err] is nullish. *)
Definition stackOfNullish : Js.Thrown := Js.typeError "undefined (reading 'stack')".

(** The text that ends up in the log for a thrown value. *)
Definition shownStack (err : Js.Thrown) : option string :=
  match err with
  | Js.ThrownString s => Some s
  | Js.ThrownError stack => stack
  | Js.ThrownNullish =>
      Some ("TypeError: Cannot read properties of " +:+ "undefined (reading 'stack')")
  end.

Definition isReportEvent (e : Event) : bool :=
  match e with
  | ConsoleLog _ | ChannelText _ _ _ => true
  | _ => false
  end.

(** What is thrown by [interaction.options.getSubcommand()] when the
    command has none. *)
Definition noSubcommand : Js.Thrown :=
  Js.ThrownError (Some "TypeError [CommandInteractionOptionNoSubcommand]").

Section WithEnv.
Variable env : Env.

Definition getPrefixTime : string :=
  "[" +:+ Grey +:+ localeTime env +:+ White +:+ "]" +:+ nl.

Definition sendLogMessage (message : string) (cfg : BotConfig) : Prog unit :=
  emit (ConsoleLog message) ;;
  if clientReady env then
    logCh <- Discord.textChannel env (logChannel cfg) ;;
    match logCh with
    | None => ret tt
    | Some c =>
        try_catch
          (Discord.sendText c
             ("```ansi" +:+ nl +:+ Js.substring0 1900 message +:+ "```"))
          (fun _ => ret tt)
    end
  else ret tt.

(** What [sendLogMessage] sends to the log channel after printing, and how
    it settles. *)
Definition mirrored (message : string) (cfg : BotConfig) : list Event :=
  if clientReady env then
    match getTextChannel env (logChannel cfg) with
    | Found c =>
        [ChannelText (channelId c)
           ("```ansi" +:+ nl +:+ Js.substring0 1900 message +:+ "```")
           (bool_decide (sendError c = None))]
    | _ => []
    end
  else [].

Definition mirrorOutcome (cfg : BotConfig) : Outcome unit :=
  if clientReady env then
    match getTextChannel env (logChannel cfg) with
    | LookupFailed e => Raised e
    | _ => Returned tt
    end
  else Returned tt.

(** Everything one call of the reporting path emits for the line
    [completeString] when its caller falls back to the console. *)
Definition reported (completeString : string) (cfg : BotConfig) : list Event :=
  ConsoleLog completeString :: mirrored completeString cfg ++
  match mirrorOutcome cfg with
  | Raised _ => [ConsoleLog completeString]
  | _ => []
  end.

(** The line [handleError] composes for an error without interaction. *)
Definition caught (errString : option string) : string :=
  ("[" +:+ Green +:+ "CAUGHT ERROR" +:+ White +:+ "] ") +:+
  getPrefixTime +:+ Js.text errString.

(** The line [sendDebug] composes for a message without interaction. *)
Definition debugLine (message : string) : string :=
  ("[" +:+ Yellow +:+ "DEBUG" +:+ White +:+ "] ") +:+ getPrefixTime +:+ message.

(** [commandDebugPrefix] with its three [%@] filled in for a command
    interaction. *)
Definition commandPrefix (cfg : BotConfig) (i : Interaction) : Prog string :=
  let p1 := Js.replace "%@" (userName i +:+ " (" +:+ userId i +:+ ")")
                       (commandDebugPrefix cfg) in
  let p2 := Js.replace "%@" (commandName i) p1 in
  match subcommand i with
  | Some sub => ret (Js.replace "%@" sub p2)
  | None => raise noSubcommand
  end.

(** The same for a message component, named by the head of its custom
    id. *)
Definition componentPrefix (cfg : BotConfig) (i : Interaction) : string :=
  let p1 := Js.replace "%@" (userName i +:+ " (" +:+ userId i +:+ ")")
                       (commandDebugPrefix cfg) in
  let p2 := Js.replace "%@" (Js.before "|" (customId i)) p1 in
  Js.replace "%@" EmptyString p2.

Definition isMessageComponent (i : Interaction) : bool :=
  match kind i with MessageComponent => true | _ => false end.
Definition isChatInputCommand (i : Interaction) : bool :=
  match kind i with ChatInput => true | _ => false end.
Definition isAutocomplete (i : Interaction) : bool :=
  match kind i with Autocomplete => true | _ => false end.

(** [sendDebug]; [debugMessage] is the message once it is a string (a
    value of another type is first passed through [JSON.stringify]).
    The call of [sendLogMessage] is not awaited. *)
Definition sendDebug (debugMessage : string) (cfg : BotConfig)
    (interaction : option Interaction) : Prog unit :=
  if negb (debugMode cfg) then ret tt
  else
    let prefix := "[" +:+ Yellow +:+ "DEBUG" +:+ White +:+ "] " in
    let time := getPrefixTime in
    message <-
      match interaction with
      | Some i =>
          if negb (isMessageComponent i)
          then p <- commandPrefix cfg i ;; ret (p +:+ debugMessage)
          else ret (componentPrefix cfg i +:+ debugMessage)
      | None => ret debugMessage
      end ;;
    let completeString := prefix +:+ time +:+ message in
    try_catch
      (detached (sendLogMessage completeString cfg))
      (fun _ => emit (ConsoleLog completeString)).

(** The [try] block of [handleError]. *)
Definition report (err : Js.Thrown) (interaction : option Interaction)
    : Prog unit :=
  errString <-
    match err with
    | Js.ThrownString s => ret (Some s)
    | Js.ThrownError stack => ret stack
    | Js.ThrownNullish => raise stackOfNullish
    end ;;
  let prefix := "[" +:+ Green +:+ "CAUGHT ERROR" +:+ White +:+ "] " in
  let time := getPrefixTime in
  w <- get ;;
  let cfg := config w in
  completeString <-
    match interaction with
    | Some i =>
        if isChatInputCommand i
        then p <- commandPrefix cfg i ;;
             ret (prefix +:+ time +:+ p +:+ Js.text errString)
        else ret (prefix +:+ time +:+ Js.text errString)
    | None => ret (prefix +:+ time +:+ Js.text errString)
    end ;;
  try_catch (sendLogMessage completeString cfg)
            (fun _ => emit (ConsoleLog completeString)) ;;
  match interaction with
  | None => ret tt
  | Some i =>
      if isAutocomplete i then ret tt
      else Discord.handleReply i (errorString cfg) (colorError cfg)
  end.

(** [handleError]: whatever its [try] block throws is handed to
    [handleError] again, without the interaction.  [depth] bounds the
    nesting of these calls; [handleError_settles] below shows that two
    nested calls are all that ever happen. *)
Fixpoint handleErrorWithin (depth : nat) (err : Js.Thrown)
    (interaction : option Interaction) : Prog unit :=
  try_catch (report err interaction)
    (fun e =>
       match depth with
       | O => raise e
       | S d => handleErrorWithin d e None
       end).

Definition handleError (err : Js.Thrown) (interaction : option Interaction)
    : Prog unit :=
  handleErrorWithin 2 err interaction.

(** The line [sendReport] composes for a direct message. *)
Definition reportLine (message : Message) : string :=
  ("[" +:+ Blue +:+ "DM REPORT" +:+ White +:+ "] ") +:+ getPrefixTime +:+
  (authorName message +:+ "(" +:+ authorId message +:+ ")" +:+ " sent: ") +:+
  content message.

(** [sendReport]; [dmReceived] is [config.stringConfig.dmReceived], and
    [message.reply] is a send in the channel of the message. *)
Definition sendReport (message : Message) (cfg : BotConfig)
    (dmReceived : string) : Prog unit :=
  let prefix := "[" +:+ Blue +:+ "DM REPORT" +:+ White +:+ "] " in
  let time := getPrefixTime in
  let completeString :=
    prefix +:+ time +:+
    (authorName message +:+ "(" +:+ authorId message +:+ ")" +:+ " sent: ") +:+
    content message in
  sendLogMessage completeString cfg ;;
  Discord.sendText (msgChannel message) dmReceived.

End WithEnv.
End LogDebug.

(* ===================================================================== *)
(** * [bot/BoarBot.ts] *)
(* ===================================================================== *)

Module BoarBot.
Import Eff.

(** Field updates of the process state. *)
Definition setConfig (c : BotConfig) : Prog unit :=
  w <- get ;; put (mkWorld (disk w) c (configHash w) (powSpawner w)).
Definition setConfigHash (h : string) : Prog unit :=
  w <- get ;; put (mkWorld (disk w) (config w) h (powSpawner w)).
Definition setPowSpawner (s : Spawner) : Prog unit :=
  w <- get ;; put (mkWorld (disk w) (config w) (configHash w) (Some s)).
Definition setDisk (d : Disk) : Prog unit :=
  w <- get ;; put (mkWorld d (config w) (configHash w) (powSpawner w)).

(** [LogDebug.log(message, config, undefined, mirror)].  The method is not
    part of the [LogDebug.ts] at hand; a call is recorded as one event. *)
Definition log (message : string) (mirror : bool) : Prog unit :=
  emit (Logged message mirror).

(** The [fs] calls of the file, on the modelled disk. *)
Module Fs.
Definition refused (what : string) : Js.Thrown :=
  Js.fsError ("EACCES: permission denied, " +:+ what).
Definition absent (what : string) : Js.Thrown :=
  Js.fsError ("ENOENT: no such file or directory, " +:+ what).

Definition mkdirDatabase (path : string) : Prog unit :=
  w <- get ;;
  let d := disk w in
  if writable d then
    setDisk (mkDisk (configJson d) true (guildDir d) (userDir d)
                    (githubFile d) (writable d)) ;;
    emit (DirCreated path)
  else raise (refused "mkdir").

Definition mkdirGuild (path : string) : Prog unit :=
  w <- get ;;
  let d := disk w in
  if writable d then
    setDisk (mkDisk (configJson d) (databaseDir d) (Some []) (userDir d)
                    (githubFile d) (writable d)) ;;
    emit (DirCreated path)
  else raise (refused "mkdir").

Definition mkdirUser (path : string) : Prog unit :=
  w <- get ;;
  let d := disk w in
  if writable d then
    setDisk (mkDisk (configJson d) (databaseDir d) (guildDir d) (Some [])
                    (githubFile d) (writable d)) ;;
    emit (DirCreated path)
  else raise (refused "mkdir").

Definition readdirGuild : Prog (list string) :=
  w <- get ;;
  match guildDir (disk w) with
  | Some entries => ret (List.map fst entries)
  | None => raise (absent "scandir")
  end.

Definition readdirUser : Prog (list string) :=
  w <- get ;;
  match userDir (disk w) with
  | Some names => ret names
  | None => raise (absent "scandir")
  end.

Fixpoint lookupFile (name : string) (entries : list (string * FileContent))
    : option FileContent :=
  match entries with
  | [] => None
  | (n, c) :: rest => if String.eqb n name then Some c else lookupFile name rest
  end.

Definition removeFile (name : string) (entries : list (string * FileContent))
    : list (string * FileContent) :=
  List.filter (fun e => negb (String.eqb (fst e) name)) entries.

(** [JSON.parse(fs.readFileSync(folder + name, 'utf-8'))]. *)
Definition readGuildJson (name : string) : Prog Js.Json :=
  w <- get ;;
  match guildDir (disk w) with
  | None => raise (absent "open")
  | Some entries =>
      match lookupFile name entries with
      | None => raise (absent "open")
      | Some Malformed => raise Js.syntaxError
      | Some (Parsed v) => ret v
      end
  end.

(** [fs.rmSync(folder + name)]. *)
Definition rmGuildFile (folder name : string) : Prog unit :=
  w <- get ;;
  let d := disk w in
  match guildDir d with
  | None => raise (absent "rm")
  | Some entries =>
      match lookupFile name entries with
      | None => raise (absent "rm")
      | Some _ =>
          if writable d then
            setDisk (mkDisk (configJson d) (databaseDir d)
                            (Some (removeFile name entries)) (userDir d)
                            (githubFile d) (writable d)) ;;
            emit (FileRemoved (folder +:+ name))
          else raise (refused "rm")
      end
  end.

(** [fs.writeFileSync(path, JSON.stringify(githubData))]. *)
Definition writeGithub (path : string) (g : GitHubData) : Prog unit :=
  w <- get ;;
  let d := disk w in
  if writable d then
    setDisk (mkDisk (configJson d) (databaseDir d) (guildDir d) (userDir d)
                    (Some g) (writable d)) ;;
    emit (FileWritten path)
  else raise (refused "open").
End Fs.

Section WithEnv.
Variable env : Env.

(** Modelled from the spec: [ConfigHandler.loadConfig] is missing from
    the sources; a "full config reload" replaces the live configuration
    by what the handler makes of the configuration file. *)
Definition loadConfig (firstLoad : bool) : Prog unit :=
  emit (LoadConfig firstLoad) ;;
  w <- get ;;
  match configJson (disk w) with
  | None => raise (Fs.absent "open 'config.json'")
  | Some bytes => c <- lift (configFromFile env bytes) ;; setConfig c
  end.

Definition getConfigHash : Prog string :=
  w <- get ;;
  match configJson (disk w) with
  | None => raise (Fs.absent "open 'config.json'")
  | Some configFile => ret (Sha256.hexdigest configFile)
  end.

(** Modelled from the spec: [Queue.addQueue(work, key)], awaited by its
    caller.  The unit runs once the chain of [key] has settled and the
    returned future carries the unit's own outcome. *)
Definition addQueue {A} (work : Prog A) (key : string) : Prog A :=
  emit (QueueBegan key) ;;
  try_catch (r <- work ;; emit (QueueEnded key) ;; ret r)
            (fun e => emit (QueueEnded key) ;; raise e).

(** [DataHandlers.getGlobalData(file)]. *)
Definition getPowerupData : Prog PowerupData :=
  emit (GlobalRead Powerups) ;; lift (getPowerups env).
Definition getQuestData : Prog QuestData :=
  emit (GlobalRead Quest) ;; lift (getQuest env).

Definition sendUpdateInfo (githubData : option GitHubData) : Prog unit :=
  w <- get ;;
  let cfg := config w in
  try_catch
    (match githubData with
     | None => ret tt
     | Some gd =>
         emit (HttpGet (pullLink cfg)) ;;
         pullReq <- lift (axiosGet env (pullLink cfg)) ;;
         match pullReq with
         | [] => ret tt
         | pullReqData :: _ =>
             if negb (String.eqb (html_url pullReqData) (lastURL gd))
                && bool_decide (merged_at pullReqData ≠ None)
             then
               Fs.writeGithub (globalDataFolder cfg +:+ githubFileName cfg)
                              (mkGitHubData (html_url pullReqData)) ;;
               let commitMsg := body pullReqData in
               let commitName := title pullReqData in
               commitChannel <- Discord.textChannel env (updatesChannel cfg) ;;
               description <-
                 match commitMsg with
                 | Some msg =>
                     ret (Js.substring0 500 (Js.replace commitName EmptyString msg)
                          +:+ "...")
                 | None => raise (Js.typeError "null (reading 'replace')")
                 end ;;
               let commitEmbed :=
                 mkEmbed (colorDark cfg) commitName (html_url pullReqData)
                         description (githubImg cfg) in
               match commitChannel with
               | Some c => detached (Discord.sendEmbed c commitEmbed)
               | None => ret tt
               end
             else ret tt
         end
     end)
    (fun err => detached (LogDebug.handleError env err None)).

(** Body of the loop of [fixGuildData] over the guild files. *)
Definition sweepFile (guildDataFolder guildFile : string) : Prog unit :=
  guildData <- Fs.readGuildJson guildFile ;;
  fullySetup <- lift (Js.property "fullySetup" guildData) ;;
  if Js.truthy fullySetup then ret tt
  else
    Fs.rmGuildFile guildDataFolder guildFile ;;
    log ("Deleted unfinished guild file: " +:+ guildFile) false.

Definition fixGuildData : Prog unit :=
  w <- get ;;
  let databaseFolder := databaseFolder (config w) in
  let guildDataFolder := databaseFolder +:+ guildDataFolder (config w) in
  guildDataFiles <-
    try_catch
      ((if databaseDir (disk w) then ret tt
        else Fs.mkdirDatabase databaseFolder) ;;
       w1 <- get ;;
       (if bool_decide (guildDir (disk w1) ≠ None) then ret tt
        else Fs.mkdirGuild guildDataFolder) ;;
       Fs.readdirGuild)
      (fun err =>
         detached (LogDebug.handleError env err None) ;;
         exit (-1)%Z) ;;
  for_each guildDataFiles (sweepFile guildDataFolder) ;;
  log "Guild data fixed!" false.

(** The callback given to [setInterval] in [onStart]. *)
Definition pollTick : Prog unit :=
  w <- get ;;
  current <- getConfigHash ;;
  (if negb (String.eqb (configHash w) current) then
     again <- getConfigHash ;;
     setConfigHash again ;;
     loadConfig false
   else ret tt) ;;
  w1 <- get ;;
  let cfg := config w1 in
  log ("Interaction Listeners: " +:+ pretty (listenerCount env)) false ;;
  sendUpdateInfo (githubFile (disk w1)) ;;
  questData <- getQuestData ;;
  if (questsStartTimestamp questData + oneDay cfg * 7 <? dateNow env)%Z
  then emit QuestDataUpdated
  else ret tt.

(** [client.users.fetch(id)] with its promise dropped. *)
Definition fetchUser (id : string) : Prog unit :=
  emit (UserFetch id) ;;
  match usersFetch env id with
  | FetchResolves => ret tt
  | FetchRejects e => detached (raise (A:=unit) e)
  | FetchThrows e => raise e
  end.

(** Body of the loop over the user data folder at the end of [onStart]. *)
Definition warmUser (userFile : string) : Prog unit :=
  try_catch
    (fetchUser (Js.before "." userFile) ;;
     emit (Slept 1000))
    (fun _ =>
       detached
         (LogDebug.handleError env
            (Js.ThrownString ("Failed to find user " +:+ Js.before "." userFile))
            None)).

Definition warmUserCache (userFiles : list string) : Prog unit :=
  for_each userFiles warmUser.

(** The ["Powerup spawning"] block of [onStart]; the result of the queued
    unit is the value it leaves in [timeUntilPow]. *)
Definition armPowerups : Prog unit :=
  let timeUntilPow := 0%Z in
  timeUntilPow <-
    addQueue
      (try_catch
         (powerupData <- getPowerupData ;;
          ret (nextPowerup powerupData))
         (fun err => LogDebug.handleError env err None ;; ret timeUntilPow))
      ("start" +:+ "global") ;;
  setPowSpawner (mkSpawner timeUntilPow false) ;;
  emit (SpawnerCreated timeUntilPow) ;;
  setPowSpawner (mkSpawner timeUntilPow true) ;;
  emit SpawnerStarted.

(** The end of [onStart]: the user data folder is created when missing
    and every user named by a file in it is fetched. *)
Definition warmCache : Prog unit :=
  w <- get ;;
  let userDataFolder :=
    databaseFolder (config w) +:+ userDataFolder (config w) in
  (if bool_decide (userDir (disk w) ≠ None) then ret tt
   else Fs.mkdirUser userDataFolder) ;;
  userFiles <- Fs.readdirUser ;;
  warmUserCache userFiles.

Definition onStart : Prog unit :=
  try_catch
    (log "Successfully logged in! Bot online!" false ;;
     emit (ListenerAdded "rateLimited") ;;
     emit (CronStarted "0 0 * * *") ;;
     configHash <- getConfigHash ;;
     setConfigHash configHash ;;
     emit (IntervalStarted 120000) ;;
     armPowerups ;;
     emit PresenceSet ;;
     log "All functions online!" true ;;
     warmCache)
    (fun err => LogDebug.handleError env err None).

(** [login]; [attempt] is what [client.login(process.env.TOKEN)] rejects
    with, if it does.  The [catch] clause does not bind the error. *)
Definition login (attempt : option Js.Thrown) : Prog unit :=
  try_catch
    (log "Logging in..." false ;;
     match attempt with
     | None => ret tt
     | Some e => raise e
     end)
    (fun _ =>
       LogDebug.handleError env
         (Js.ThrownString
            "Client wasn't initialized or you used an invalid token!")
         None ;;
       exit (-1)%Z).

End WithEnv.

(** One firing of the ['rateLimited'] event of the REST client: what the
    calls made by the listener answer. *)
Record RateHit := mkRateHit {
  checked : Z;            (* [Date.now()] in the test of [shouldSend] *)
  stamped : Z;            (* [Date.now()] stored in [lastHit] *)
  cached : N;             (* [client.users.cache.size] *)
  listed : Js.Thrown + list string;   (* [readdirSync] in the test *)
  relisted : Js.Thrown + list string  (* [readdirSync] in the message *)
}.

(** The listener that [onStart] registers for ['rateLimited']; [lastHit] is
    the variable of [onStart] it closes over, and its new value is
    returned.  [&&] reads the folder only when the time test holds. *)
Definition rateLimited (lastHit : Z) (hit : RateHit) : Prog Z :=
  shouldSend <-
    (if (lastHit + 30000 <? checked hit)%Z then
       files <- lift (listed hit) ;;
       ret (N.of_nat (length files) <=? cached hit)%N
     else ret false) ;;
  files <- lift (relisted hit) ;;
  log ("Hit Limit! Cached Users: " +:+ pretty (cached hit) +:+ "/" +:+
       pretty (N.of_nat (length files)))
      shouldSend ;;
  ret (stamped hit).

(** The value of [lastHit] after a firing: a firing that throws does not
    reach the assignment. *)
Definition lastHitAfter (lastHit : Z) (r : Result Z) : Z :=
  match out r with
  | Returned t => t
  | _ => lastHit
  end.

(** What the firings [hits] of the listener emit, one after the other. *)
Fixpoint rateLimitedAll (lastHit : Z) (hits : list RateHit) (w : World)
    : list Event :=
  match hits with
  | [] => []
  | hit :: rest =>
      let r := rateLimited lastHit hit w in
      emitted r ++ rateLimitedAll (lastHitAfter lastHit r) rest (after r)
  end.

End BoarBot.

(* ===================================================================== *)
(** * Vocabulary of the statements *)
(* ===================================================================== *)

Module Obs.

(** The [fullySetup] flag of a guild record: a parsed object whose
    [fullySetup] member is a boolean. *)
Definition fullySetupOf (c : FileContent) : option bool :=
  match c with
  | Parsed (Js.JObj ms) =>
      match Js.member "fullySetup" ms with
      | Some (Js.JBool b) => Some b
      | _ => None
      end
  | _ => None
  end.

(** What the sweep does with a file: keep it ([Some true]), delete it
    ([Some false]), or stop on it ([None]). *)
Definition verdict (c : FileContent) : option bool :=
  match c with
  | Malformed => None
  | Parsed v =>
      match Js.property "fullySetup" v with
      | inl _ => None
      | inr x => Some (Js.truthy x)
      end
  end.

Definition isKept (e : string * FileContent) : bool :=
  bool_decide (verdict (snd e) = Some true).

Definition sweepEvents (folder : string) (e : string * FileContent) : list Event :=
  if isKept e then []
  else [FileRemoved (folder +:+ fst e);
        Logged ("Deleted unfinished guild file: " +:+ fst e) false].

Definition isRemoval (e : Event) : bool :=
  match e with FileRemoved _ => true | _ => false end.

Definition isComplete (e : string * FileContent) : bool :=
  bool_decide (fullySetupOf (snd e) = Some true).

Definition isIncomplete (e : string * FileContent) : bool :=
  bool_decide (fullySetupOf (snd e) = Some false).

(** Announcements of an update: embeds sent to a channel. *)
Definition isAnnouncement (e : Event) : bool :=
  match e with ChannelEmbed _ _ _ => true | _ => false end.
Definition announcements (l : list Event) : list Event :=
  List.filter isAnnouncement l.

Definition isLoadConfig (e : Event) : bool :=
  match e with LoadConfig _ => true | _ => false end.
Definition isQuestUpdate (e : Event) : bool :=
  match e with QuestDataUpdated => true | _ => false end.
Definition isFileWritten (e : Event) : bool :=
  match e with FileWritten _ => true | _ => false end.
Definition isConsoleLog (e : Event) : bool :=
  match e with ConsoleLog _ => true | _ => false end.

(** What [sendUpdateInfo] can emit. *)
Definition isUpdateInfoEvent (e : Event) : bool :=
  match e with
  | HttpGet _ | FileWritten _ | ChannelEmbed _ _ _
  | ConsoleLog _ | ChannelText _ _ _ | UnhandledRejection _ => true
  | _ => false
  end.

(** The embed built by [sendUpdateInfo] for a pull request with
    description [msg]. *)
Definition announcementOf (cfg : BotConfig) (pr : PullRequest) (msg : string)
    : Embed :=
  mkEmbed (colorDark cfg) (title pr) (html_url pr)
          (Js.substring0 500 (Js.replace (title pr) EmptyString msg) +:+ "...")
          (githubImg cfg).

(** Replies to the user of an interaction. *)
Definition isReply (e : Event) : bool :=
  match e with InteractionReply _ _ => true | _ => false end.
Definition replies (l : list Event) : list Event := List.filter isReply l.

(** The texts sent to channels. *)
Fixpoint sentTexts (l : list Event) : list string :=
  match l with
  | [] => []
  | ChannelText _ c _ :: l' => c :: sentTexts l'
  | _ :: l' => sentTexts l'
  end.

(** The descriptions of the embeds sent to channels. *)
Fixpoint sentDescriptions (l : list Event) : list string :=
  match l with
  | [] => []
  | ChannelEmbed _ e _ :: l' => embedDescription e :: sentDescriptions l'
  | _ :: l' => sentDescriptions l'
  end.

(** The mirror flags of the [LogDebug.log] calls. *)
Fixpoint mirrorFlags (l : list Event) : list bool :=
  match l with
  | [] => []
  | Logged _ m :: l' => m :: mirrorFlags l'
  | _ :: l' => mirrorFlags l'
  end.

(** The files of the guild data folder (none when the folder is missing). *)
Definition guildFiles (w : World) : list (string * FileContent) :=
  default [] (guildDir (disk w)).

(** Everything but the disk is as before. *)
Definition sameProcess (w w' : World) : Prop :=
  config w' = config w ∧ configHash w' = configHash w ∧
  powSpawner w' = powSpawner w.

(** On the disk, everything but the feed cursor is as before. *)
Definition sameButCursor (w w' : World) : Prop :=
  sameProcess w w' ∧
  configJson (disk w') = configJson (disk w) ∧
  databaseDir (disk w') = databaseDir (disk w) ∧
  guildDir (disk w') = guildDir (disk w) ∧
  userDir (disk w') = userDir (disk w) ∧
  writable (disk w') = writable (disk w).

(** On the disk, everything but the guild data folder (and the existence of
    the database folder) is as before. *)
Definition sameButGuilds (w w' : World) : Prop :=
  sameProcess w w' ∧
  configJson (disk w') = configJson (disk w) ∧
  userDir (disk w') = userDir (disk w) ∧
  githubFile (disk w') = githubFile (disk w) ∧
  writable (disk w') = writable (disk w).

(** Firings of the rate-limit listener each of which comes at most 30
    seconds after the last stamp (a firing whose folder read throws leaves
    the stamp as it was). *)
Fixpoint closelySpaced (lastHit : Z) (hits : list BoarBot.RateHit) : Prop :=
  match hits with
  | [] => True
  | hit :: rest =>
      (BoarBot.checked hit <= lastHit + 30000)%Z ∧
      closelySpaced
        (match BoarBot.relisted hit with
         | inr _ => BoarBot.stamped hit
         | inl _ => lastHit
         end) rest
  end.

(** The ids fetched, in order. *)
Fixpoint fetched (l : list Event) : list string :=
  match l with
  | [] => []
  | UserFetch id :: l' => id :: fetched l'
  | _ :: l' => fetched l'
  end.

(** What one round of the cache-warming loop emits for [userFile]. *)
Definition warmEvents (env : Env) (cfg : BotConfig) (userFile : string)
    : list Event :=
  let id := Js.before "." userFile in
  match usersFetch env id with
  | FetchResolves => [UserFetch id; Slept 1000]
  | FetchRejects e => [UserFetch id; UnhandledRejection e; Slept 1000]
  | FetchThrows _ =>
      UserFetch id ::
      LogDebug.reported env
        (LogDebug.caught env (Some ("Failed to find user " +:+ id))) cfg
  end.

(** The events of [onStart] up to the powerup block, and from the creation
    of the spawner with countdown [t] to the readiness log. *)
Definition startEvents : list Event :=
  [Logged "Successfully logged in! Bot online!" false;
   ListenerAdded "rateLimited"; CronStarted "0 0 * * *";
   IntervalStarted 120000].

Definition spawnEvents (t : Z) : list Event :=
  [QueueEnded "startglobal"; SpawnerCreated t; SpawnerStarted;
   PresenceSet; Logged "All functions online!" true].

(** Interactions that get no reply from [handleError]: the error has no
    [stack] to read, the interaction is an autocomplete, or it is a command
    without subcommand. *)
Definition silent (err : Js.Thrown) (i : Interaction) : bool :=
  match err with Js.ThrownNullish => true | _ => false end
  || LogDebug.isAutocomplete i
  || (LogDebug.isChatInputCommand i && bool_decide (subcommand i = None)).

(** Calls of [sendDebug] that throw: debug mode is on and the interaction
    is not a message component and has no subcommand. *)
Definition debugThrows (cfg : BotConfig) (oi : option Interaction) : bool :=
  debugMode cfg &&
  match oi with
  | Some i =>
      negb (LogDebug.isMessageComponent i) && bool_decide (subcommand i = None)
  | None => false
  end.

(** No call of [loadConfig]. *)
Definition noReload (l : list Event) : bool :=
  forallb (fun e => negb (isLoadConfig e)) l.

(** The configuration and, on the disk, everything but the user data
    folder are as before. *)
Definition sameButUsers (w w' : World) : Prop :=
  config w' = config w ∧
  configJson (disk w') = configJson (disk w) ∧
  databaseDir (disk w') = databaseDir (disk w) ∧
  guildDir (disk w') = guildDir (disk w) ∧
  githubFile (disk w') = githubFile (disk w) ∧
  writable (disk w') = writable (disk w).



(** The value of the [fullySetup] property of a file's JSON ([None] for
    [undefined]). *)
Definition flag (c : FileContent) : option Js.Json :=
  match c with
  | Parsed (Js.JObj ms) => Js.member "fullySetup" ms
  | _ => None
  end.

(** Files that parse to something other than [null]. *)
Definition readable (c : FileContent) : bool :=
  match c with
  | Malformed | Parsed Js.JNull => false
  | Parsed _ => true
  end.

Definition finished (e : string * FileContent) : bool :=
  Js.truthy (flag (snd e)).

Definition finishedEvents (folder : string) (e : string * FileContent)
    : list Event :=
  if finished e then []
  else [FileRemoved (folder +:+ fst e);
        Logged ("Deleted unfinished guild file: " +:+ fst e) false].

(** What a sweep may change: files of the guild folder may go. *)
Definition thinned (w w' : World) : Prop :=
  sameButGuilds w w' ∧
  databaseDir (disk w') = databaseDir (disk w) ∧
  guildFiles w' `sublist_of` guildFiles w ∧
  (is_Some (guildDir (disk w)) → is_Some (guildDir (disk w'))).

Definition withFetch (fetch : string → FetchResult) (env : Env) : Env :=
  mkEnv (clientReady env) (getTextChannel env) (localeTime env) (dateNow env)
        (listenerCount env) (configFromFile env) (axiosGet env)
        (getPowerups env) (getQuest env) fetch.


Definition withGuildDir (entries : list (string * FileContent)) (w : World)
    : World :=
  let d := disk w in
  mkWorld (mkDisk (configJson d) (databaseDir d) (Some entries) (userDir d)
                  (githubFile d) (writable d))
          (config w) (configHash w) (powSpawner w).

End Obs.

(** A concrete installation, used to run the programs on examples. *)
Module Sample.

Definition cfg : BotConfig :=
  mkBotConfig true "log-channel" "updates-channel" "default-channel"
    "[%@ used /%@ %@] " "An error occurred." "https://api.github.com/pulls"
    "https://github.com/logo.png" "#ff0000" "#151518" 86400000%Z
    "database/" "guilds/" "users/" "global/" "github.json".

Definition configBytes : list Byte.byte := list_byte_of_string "{}".

Definition guildA : FileContent :=
  Parsed (Js.JObj [("fullySetup", Js.JBool false)]).
Definition guildB : FileContent :=
  Parsed (Js.JObj [("fullySetup", Js.JBool true); ("channels", Js.JArr [])]).

Definition dsk : Disk :=
  mkDisk (Some configBytes) true
         (Some [("A.json", guildA); ("B.json", guildB)])
         (Some ["123.json"; "456.json"])
         (Some (mkGitHubData "X")) true.

Definition world : World :=
  mkWorld dsk cfg (Sha256.hexdigest configBytes) None.


Definition rejection : Js.Thrown :=
  Js.ThrownError (Some "DiscordAPIError[10013]: Unknown User").

(** [channels] answers the channel lookups, [feed] the pull-request poll,
    [powerups] the read of the powerup record, [fetch] the user fetches,
    [now] the clock. *)
Definition env (channels : string → Lookup) (feed : list PullRequest)
    (powerups : Js.Thrown + PowerupData) (fetch : string → FetchResult)
    (now : Z) : Env :=
  mkEnv true channels "11/2/2023, 10:00:00 AM" now 1%N
        (fun _ => inr cfg) (fun _ => inr feed) powerups
        (inr (mkQuestData 0)) fetch.

Definition allChannels (id : string) : Lookup := Found (mkChannel id None).
Definition deafChannels (id : string) : Lookup :=
  Found (mkChannel id (Some (Js.ThrownError (Some "DiscordAPIError: Missing Access")))).

End Sample.

(* ===================================================================== *)
(** * Running programs symbolically *)
(* ===================================================================== *)

(** Unfolds the program combinators and the primitive operations so that a
    program applied to a world computes as far as the data allows. *)
Ltac run :=
  cbv beta iota delta
    [Eff.bind Eff.ret Eff.raise Eff.exit Eff.emit Eff.get Eff.put
     Eff.try_catch Eff.detached Eff.lift
     Discord.textChannel Discord.sendText Discord.sendEmbed Discord.handleReply
     BoarBot.setConfig BoarBot.setConfigHash BoarBot.setPowSpawner
     BoarBot.setDisk BoarBot.log
     BoarBot.Fs.mkdirDatabase BoarBot.Fs.mkdirGuild BoarBot.Fs.mkdirUser
     BoarBot.Fs.readdirGuild BoarBot.Fs.readdirUser BoarBot.Fs.readGuildJson
     BoarBot.Fs.rmGuildFile BoarBot.Fs.writeGithub];
  cbn [Eff.out Eff.after Eff.emitted app disk config configHash powSpawner
       configJson databaseDir guildDir userDir githubFile writable].

(** Settle a statement that a world differs from another in the named part
    only. *)
Ltac frame :=
  unfold Obs.sameButCursor, Obs.sameButGuilds, Obs.sameProcess;
  cbn [disk config configHash powSpawner configJson databaseDir guildDir
       userDir githubFile writable];
  repeat split; congruence.

Ltac users :=
  unfold Obs.sameButUsers;
  cbn [disk config configHash powSpawner configJson databaseDir guildDir
       userDir githubFile writable];
  repeat split; congruence.

(* ===================================================================== *)
(** * Properties of the keyed task queue *)
(* ===================================================================== *)

Section QueueFacts.
Import Queue.

Lemma run_snoc acts a s :
  run (acts ++ [a]) s = run acts s ≫= step a.
Proof.
  revert s. induction acts as [|b acts IH]; intros s; simpl.
  - by destruct (step a s).
  - destruct (step b s) as [s'|]; [apply IH | done].
Qed.

Lemma enqueued_snoc k acts a :
  enqueued k (acts ++ [a]) =
  enqueued k acts ++
    match a with
    | Enqueue k' w => if bool_decide (k' = k) then [w] else []
    | Settle _ _ => []
    end.
Proof.
  induction acts as [|b acts IH]; simpl.
  - destruct a; [case_bool_decide|]; done.
  - destruct b; [case_bool_decide|]; simpl; by rewrite IH.
Qed.

Lemma settled_snoc k acts a :
  settled k (acts ++ [a]) =
  settled k acts ++
    match a with
    | Settle k' ok => if bool_decide (k' = k) then [ok] else []
    | Enqueue _ _ => []
    end.
Proof.
  induction acts as [|b acts IH]; simpl.
  - destruct a; [|case_bool_decide]; done.
  - destruct b; [|case_bool_decide]; simpl; by rewrite IH.
Qed.

Lemma on_key_snoc k l e :
  on_key k (l ++ [e]) =
  on_key k l ++ (if bool_decide (event_key e = k) then [e] else []).
Proof. unfold on_key. rewrite List.filter_app. simpl. by case_bool_decide. Qed.

(** How the sequential log grows with one more unit or one more outcome. *)
Lemma serial_enqueue_idle k ws outs w :
  length outs = length ws →
  serial k (ws ++ [w]) outs = serial k ws outs ++ [Began k w].
Proof.
  revert outs. induction ws as [|x ws IH]; intros [|o outs] Hl; simpl in *;
    try done.
  f_equal. f_equal. apply IH. lia.
Qed.

Lemma serial_enqueue_busy k ws outs w :
  length outs < length ws →
  serial k (ws ++ [w]) outs = serial k ws outs.
Proof.
  revert outs. induction ws as [|x ws IH]; intros [|o outs] Hl; simpl in *;
    try lia; try done.
  f_equal. f_equal. apply IH. lia.
Qed.

Lemma serial_settle k ws outs ok w rest :
  drop (length outs) ws = w :: rest →
  serial k ws (outs ++ [ok]) =
  serial k ws outs ++
    Ended k w ok :: match rest with [] => [] | w' :: _ => [Began k w'] end.
Proof.
  revert outs. induction ws as [|x ws IH]; intros [|o outs] Hd; simpl in *;
    try done.
  - injection Hd as -> ->. by destruct rest.
  - f_equal. f_equal. by apply IH.
Qed.

Lemma began_serial k ws outs :
  began (serial k ws outs) = take (S (length outs)) ws.
Proof.
  revert outs. induction ws as [|x ws IH]; intros [|o outs]; simpl; try done.
  f_equal. apply IH.
Qed.

Lemma ended_serial k ws outs :
  ended (serial k ws outs) = take (length outs) ws.
Proof.
  revert outs. induction ws as [|x ws IH]; intros [|o outs]; simpl; try done.
  f_equal. apply IH.
Qed.

Lemma exclusive_serial k ws outs :
  exclusive None (serial k ws outs) = true.
Proof.
  revert outs. induction ws as [|x ws IH]; intros [|o outs]; simpl; try done.
  rewrite Nat.eqb_refl. apply IH.
Qed.

Lemma drop_cons_inv {A} (l : list A) n x r :
  drop n l = x :: r → n < length l ∧ drop (S n) l = r.
Proof.
  revert n. induction l as [|y l IH]; intros [|n] Hd; simpl in *; try done.
  - injection Hd as -> ->. split; [lia | by rewrite drop_0].
  - destruct (IH n Hd) as [Hlt Hr]. split; [lia | done].
Qed.

(** Invariant of every state reachable from the empty queue. *)
Lemma reachable_inv acts s k :
  run acts init = Some s →
  length (settled k acts) ≤ length (enqueued k acts) ∧
  on_key k (log s) = serial k (enqueued k acts) (settled k acts) ∧
  chains s !! k = pending (enqueued k acts) (length (settled k acts)).
Proof.
  revert s. induction acts as [|a acts IH] using rev_ind; intros s Hrun.
  - injection Hrun as <-. simpl. split; [lia|]. split; [done|].
    unfold pending. simpl. apply lookup_empty.
  - rewrite run_snoc in Hrun.
    destruct (run acts init) as [s0|] eqn:Hs0; [|done]. simpl in Hrun.
    destruct (IH s0 eq_refl) as (Hle & Hlog & Hch).
    rewrite enqueued_snoc, settled_snoc.
    set (ws := enqueued k acts) in *. set (outs := settled k acts) in *.
    destruct a as [k' w | k' ok]; simpl in Hrun.
    + (* a caller enqueues *)
      injection Hrun as <-. rewrite app_nil_r.
      case_bool_decide as Hk.
      * subst k'. unfold enqueue. rewrite Hch. unfold pending.
        rewrite length_app. simpl.
        destruct (drop (length outs) ws) as [|x r] eqn:Hd; simpl.
        -- apply drop_nil_inv in Hd.
           assert (length outs = length ws) as Hl by lia.
           split; [lia|]. split.
           ++ rewrite on_key_snoc. simpl. rewrite bool_decide_eq_true_2 by done.
              rewrite Hlog. symmetry. by apply serial_enqueue_idle.
           ++ rewrite lookup_insert_eq. rewrite drop_app_length'; done.
        -- destruct (drop_cons_inv _ _ _ _ Hd) as [Hl _].
           split; [lia|]. split.
           ++ rewrite Hlog. symmetry. by apply serial_enqueue_busy.
           ++ rewrite lookup_insert_eq. rewrite drop_app_le by lia.
              rewrite Hd. done.
      * rewrite app_nil_r. split; [done|]. unfold enqueue.
        destruct (chains s0 !! k') as [c|]; simpl.
        -- split; [done|]. by rewrite lookup_insert_ne.
        -- rewrite on_key_snoc. simpl. rewrite bool_decide_eq_false_2 by done.
           rewrite app_nil_r. split; [done|]. by rewrite lookup_insert_ne.
    + (* the running unit of a key settles *)
      rewrite app_nil_r. unfold settle in Hrun.
      case_bool_decide as Hk.
      * subst k'. rewrite Hch in Hrun. unfold pending in Hrun.
        destruct (drop (length outs) ws) as [|x r] eqn:Hd; [done|].
        destruct (drop_cons_inv _ _ _ _ Hd) as [Hl Hr].
        assert (drop (length (outs ++ [ok])) ws = r) as Hd'.
        { rewrite length_app. simpl.
          by replace (length outs + 1) with (S (length outs)) by lia. }
        split; [rewrite length_app; simpl; lia|].
        unfold pending. rewrite Hd'.
        destruct r as [|w' r']; injection Hrun as <-; simpl.
        -- split.
           ++ rewrite on_key_snoc. simpl. rewrite bool_decide_eq_true_2 by done.
              rewrite Hlog. symmetry. by apply (serial_settle k ws outs ok x []).
           ++ apply lookup_delete_eq.
        -- split.
           ++ change [Ended k x ok; Began k w']
                with ([Ended k x ok] ++ [Began k w']).
              rewrite app_assoc, !on_key_snoc. simpl.
              rewrite !bool_decide_eq_true_2 by done.
              rewrite Hlog, <- app_assoc. symmetry.
              by apply (serial_settle k ws outs ok x (w' :: r')).
           ++ apply lookup_insert_eq.
      * rewrite app_nil_r. split; [done|].
        destruct (chains s0 !! k') as [[|x [|w' r']]|]; try done;
          injection Hrun as <-; simpl.
        -- rewrite on_key_snoc. simpl. rewrite bool_decide_eq_false_2 by done.
           rewrite app_nil_r. split; [done|]. by rewrite lookup_delete_ne.
        -- change [Ended k' x ok; Began k' w']
             with ([Ended k' x ok] ++ [Began k' w']).
           rewrite app_assoc, !on_key_snoc. simpl.
           rewrite !bool_decide_eq_false_2 by done.
           rewrite !app_nil_r. split; [done|]. by rewrite lookup_insert_ne.
Qed.

Lemma pending_running ws n :
  n < length ws → ∃ x r, pending ws n = Some (x :: r).
Proof.
  intros Hn. unfold pending.
  destruct (drop n ws) as [|x r] eqn:Hd; [|by eauto].
  apply drop_nil_inv in Hd. lia.
Qed.

Lemma settle_running k ok s x r :
  chains s !! k = Some (x :: r) →
  ∃ m, settle k ok s = Some (mkState m (log s ++ Ended k x ok :: successor k r))
       ∧ (∀ j, j ≠ k → m !! j = chains s !! j)
       ∧ m !! k = match r with [] => None | _ => Some r end.
Proof.
  intros Hk. unfold settle. rewrite Hk. destruct r as [|w r]; simpl.
  - eexists. split; [done|]. split; [|apply lookup_delete_eq].
    intros j Hj. by rewrite lookup_delete_ne.
  - eexists. split; [done|]. split; [|apply lookup_insert_eq].
    intros j Hj. by rewrite lookup_insert_ne.
Qed.

(** C1.  Keyed task queue.  In every schedule of enqueues and settlements
    that the queue can go through from empty, the units enqueued under one
    key [k] begin and end in their submission order ([began], [ended] are
    prefixes of the submissions), never two at a time ([exclusive]), each
    exactly once when all have settled, and the running unit can always
    settle whatever the other keys do.  Distinct keys are not ordered:
    when [k] and [k'] both have a running unit, these can settle in either
    order, with the same chains afterwards. *)
Theorem keyed_queue_fifo_per_key
    (acts : list Action) (s : State) (k k' : string) :
  run acts init = Some s →
  k ≠ k' →
  let ws := enqueued k acts in
  let n := length (settled k acts) in
  let lg := on_key k (log s) in
  (n ≤ length ws ∧
   began lg = take (S n) ws ∧
   ended lg = take n ws ∧
   exclusive None lg = true ∧
   (n = length ws → began lg = ws ∧ ended lg = ws) ∧
   (n < length ws → ∀ ok, is_Some (settle k ok s)))
  ∧
  (n < length ws →
   length (settled k' acts) < length (enqueued k' acts) →
   ∀ ok ok', ∃ s1 s2 x y nxt nxt',
     run [Settle k ok; Settle k' ok'] s = Some s1 ∧
     run [Settle k' ok'; Settle k ok] s = Some s2 ∧
     chains s1 = chains s2 ∧
     log s1 = log s ++ (Ended k x ok :: nxt) ++ (Ended k' y ok' :: nxt') ∧
     log s2 = log s ++ (Ended k' y ok' :: nxt') ++ (Ended k x ok :: nxt)).
Proof.
  intros Hrun Hne ws n lg.
  destruct (reachable_inv acts s k Hrun) as (Hle & Hlog & Hch).
  destruct (reachable_inv acts s k' Hrun) as (_ & _ & Hch').
  fold ws in Hle, Hlog, Hch. fold n in Hle, Hch. fold lg in Hlog.
  split.
  - split; [done|]. rewrite Hlog.
    split; [apply began_serial|]. split; [apply ended_serial|].
    split; [apply exclusive_serial|]. split.
    + intros Hn. rewrite began_serial, ended_serial. fold n. rewrite Hn.
      split; [apply take_ge; lia | apply take_ge; lia].
    + intros Hn ok. destruct (pending_running ws n Hn) as (x & r & Hp).
      rewrite Hp in Hch.
      destruct (settle_running k ok s x r Hch) as (m & -> & _). by eexists.
  - intros Hn Hn' ok ok'.
    destruct (pending_running ws n Hn) as (x & r & Hp).
    destruct (pending_running _ _ Hn') as (y & r' & Hp').
    rewrite Hp in Hch. rewrite Hp' in Hch'.
    destruct (settle_running k ok s x r Hch) as (m1 & E1 & O1 & K1).
    destruct (settle_running k' ok' s y r' Hch') as (m2 & E2 & O2 & K2).
    set (t1 := mkState m1 (log s ++ Ended k x ok :: successor k r)) in *.
    set (t2 := mkState m2 (log s ++ Ended k' y ok' :: successor k' r')) in *.
    assert (chains t1 !! k' = Some (y :: r')) as Hk'.
    { simpl. rewrite O1 by done. exact Hch'. }
    assert (chains t2 !! k = Some (x :: r)) as Hk.
    { simpl. rewrite O2 by done. exact Hch. }
    destruct (settle_running k' ok' t1 y r' Hk') as (m12 & E12 & O12 & K12).
    destruct (settle_running k ok t2 x r Hk) as (m21 & E21 & O21 & K21).
    eexists _, _, x, y, (successor k r), (successor k' r').
    simpl. rewrite E1, E12, E2, E21. simpl.
    split; [done|]. split; [done|]. split.
    + apply map_eq. intros j. cbn [chains].
      destruct (decide (j = k)) as [->|Hjk];
        [|destruct (decide (j = k')) as [->|Hjk']].
      * rewrite O12 by done. simpl. by rewrite K1, K21.
      * rewrite K12, O21 by done. simpl. by rewrite K2.
      * rewrite O12, O21 by done. simpl. by rewrite O1, O2.
    + by rewrite <- !app_assoc.
Qed.

Lemma keyed_queue_fifo_per_key_witness :
  let acts := [Enqueue "42" 1; Enqueue "startglobal" 7; Enqueue "42" 2;
               Settle "42" false; Enqueue "42" 3] in
  let s := default init (run acts init) in
  run acts init = Some s ∧
  began (on_key "42" (log s)) = [1; 2] ∧
  ended (on_key "42" (log s)) = [1] ∧
  exclusive None (on_key "42" (log s)) = true.
Proof.
  intros acts s.
  assert (run acts init = Some s) as Hrun by (by vm_compute).
  split; [exact Hrun|].
  destruct (keyed_queue_fifo_per_key acts s "42" "startglobal" Hrun)
    as [(_ & Hb & He & Hx & _) _]; [done|].
  by split; [exact Hb | split; [exact He | exact Hx]].
Defined.

End QueueFacts.

(* ===================================================================== *)
(** * The format of a digest *)
(* ===================================================================== *)

Section Sha256Facts.
Import Sha256.









End Sha256Facts.

(** Known answers: the empty message, ["abc"], a message that needs two
    blocks, and the constants themselves. *)
Example hexdigest_empty :
  Sha256.hexdigest [] =
  "e3b0c44298fc1c149afbf4c8996fb92427ae41e4649b934ca495991b7852b855".
Proof. by vm_compute. Qed.

Example hexdigest_abc :
  Sha256.hexdigest (list_byte_of_string "abc") =
  "ba7816bf8f01cfea414140de5dae2223b00361a396177a9cb410ff61f20015ad".
Proof. by vm_compute. Qed.

Example hexdigest_two_blocks :
  Sha256.hexdigest
    (list_byte_of_string
       "abcdbcdecdefdefgefghfghighijhijkijkljklmklmnlmnomnopnopq") =
  "248d6a61d20638b8e5c026930c3e6039a33ce45964ff2167f6ecedd419db06c1".
Proof. by vm_compute. Qed.

Example round_constants_ends :
  List.hd 0%Z Sha256.K = 0x428a2f98%Z ∧ List.last Sha256.K 0%Z = 0xc67178f2%Z ∧
  Sha256.ra Sha256.H0 = 0x6a09e667%Z ∧ Sha256.rh Sha256.H0 = 0x5be0cd19%Z.
Proof. by vm_compute. Qed.

(* ===================================================================== *)
(** * The reporting path of [LogDebug] *)
(* ===================================================================== *)

Section LogDebugFacts.
Import Eff LogDebug.
Variable env : Env.

Lemma sendLogMessage_result message cfg w :
  sendLogMessage env message cfg w =
  mkResult (mirrorOutcome env cfg) w (ConsoleLog message :: mirrored env message cfg).
Proof.
  unfold sendLogMessage, mirrorOutcome, mirrored. run.
  destruct (clientReady env); [|done]. run.
  destruct (getTextChannel env (logChannel cfg)) as [c| |e]; try done.
  run. by destruct (sendError c).
Qed.

Lemma mirrorOutcome_cases cfg :
  mirrorOutcome env cfg = Returned tt ∨ ∃ e, mirrorOutcome env cfg = Raised e.
Proof.
  unfold mirrorOutcome. destruct (clientReady env); [|by left].
  destruct (getTextChannel env (logChannel cfg)); eauto.
Qed.

Lemma report_plain err w :
  err ≠ Js.ThrownNullish →
  report env err None w =
  mkResult (Returned tt) w (reported env (caught env (shownStack err)) (config w)).
Proof.
  intros Herr. unfold report, reported, caught. run.
  destruct err as [s|stack|]; [| |done]; run;
    rewrite sendLogMessage_result; simpl;
    destruct (mirrorOutcome_cases (config w)) as [->|[e ->]]; simpl;
    by rewrite ?app_nil_r.
Qed.

Lemma report_nullish i w :
  report env Js.ThrownNullish i w = mkResult (Raised stackOfNullish) w [].
Proof. reflexivity. Qed.

Lemma handleErrorWithin_plain n err w :
  handleErrorWithin env (S n) err None w =
  mkResult (Returned tt) w (reported env (caught env (shownStack err)) (config w)).
Proof.
  destruct err as [s|stack|].
  1,2: simpl; unfold try_catch; by rewrite report_plain.
  simpl. unfold try_catch at 1. rewrite report_nullish.
  destruct n; simpl; unfold try_catch; by rewrite report_plain.
Qed.

Lemma handleError_plain err w :
  handleError env err None w =
  mkResult (Returned tt) w (reported env (caught env (shownStack err)) (config w)).
Proof. apply handleErrorWithin_plain. Qed.

Lemma reported_events line cfg :
  forallb isReportEvent (reported env line cfg) = true.
Proof.
  unfold reported, mirrored. simpl. rewrite forallb_app.
  destruct (mirrorOutcome env cfg); destruct (clientReady env); simpl; try done;
    by destruct (getTextChannel env (logChannel cfg)).
Qed.

Lemma report_settles err i w :
  ∃ o ev, report env err i w = mkResult o w ev ∧
          (o = Returned tt ∨ ∃ e, o = Raised e).
Proof.
  destruct i as [i|].
  - unfold report, commandPrefix, isChatInputCommand, isAutocomplete.
    destruct err as [s|stack|]; [| |by eauto 6];
      destruct (kind i), (subcommand i); run;
      rewrite ?sendLogMessage_result; cbn [out after emitted];
      try (destruct (mirrorOutcome_cases (config w)) as [->|[e ->]]);
      run; rewrite ?sendLogMessage_result; cbn [out after emitted];
      try (destruct (mirrorOutcome_cases (config w)) as [->|[e' ->]]);
      try destruct (replyError i); eauto 6.
  - destruct err as [s|stack|]; [| |by eauto 6];
      rewrite report_plain by done; eauto.
Qed.

Lemma handleErrorWithin_step k err i w :
  handleErrorWithin env (S k) err i w =
  match report env err i w with
  | mkResult (Raised e) w1 ev1 =>
      let r := handleErrorWithin env k e None w1 in
      mkResult (out r) (after r) (ev1 ++ emitted r)
  | r => r
  end.
Proof.
  cbn [handleErrorWithin]. unfold try_catch at 1.
  destruct (report env err i w) as [[a|e|c] w1 ev1]; try done.
  by destruct (handleErrorWithin env k e None w1).
Qed.

(** Two nested calls are all that ever happen: [handleError] settles
    normally, leaves the state alone, and more room changes nothing. *)
Lemma handleError_settles n err i w :
  handleErrorWithin env (2 + n) err i w = handleError env err i w ∧
  out (handleError env err i w) = Returned tt ∧
  after (handleError env err i w) = w.
Proof.
  unfold handleError. change (2 + n) with (S (S n)).
  rewrite !handleErrorWithin_step.
  destruct (report_settles err i w) as (o & ev & -> & [->|[e ->]]); [done|].
  by rewrite !handleErrorWithin_plain.
Qed.
(** The line [sendDebug] composes for a message without interaction. *)
Lemma sendDebug_plain message cfg w :
  debugMode cfg = true →
  sendDebug env message cfg None w =
  mkResult (Returned tt) w
    (ConsoleLog (debugLine env message) :: mirrored env (debugLine env message) cfg ++
     match mirrorOutcome env cfg with
     | Raised e => [UnhandledRejection e]
     | _ => []
     end).
Proof.
  intros Hd. unfold sendDebug, debugLine. rewrite Hd. cbn [negb]. run.
  rewrite sendLogMessage_result.
  destruct (mirrorOutcome_cases cfg) as [->|[e ->]]; simpl;
    by rewrite ?app_nil_r.
Qed.

(** C9.  Every message handed to [sendLogMessage] is printed on the console
    first, whatever the state of the client and of the log channel, and is
    then sent to the log channel when the client is ready and the channel
    is found; a send that the channel rejects is swallowed there
    ([sendLogMessage] still settles normally, without touching the state);
    and its callers [handleError] and [sendDebug] settle normally in every
    environment, even one where the channel lookup itself throws, with
    their line on the console. *)
Theorem reporting_prints_always_and_swallows_mirror_failures
    (message : string) (cfg : BotConfig) (err : Js.Thrown)
    (i : option Interaction) (w : World) :
  sendLogMessage env message cfg w =
    mkResult (mirrorOutcome env cfg) w
             (ConsoleLog message :: mirrored env message cfg) ∧
  (∀ c e,
     clientReady env = true →
     getTextChannel env (logChannel cfg) = Found c →
     sendError c = Some e →
     sendLogMessage env message cfg w =
     mkResult (Returned tt) w
       [ConsoleLog message;
        ChannelText (channelId c)
          ("```ansi" +:+ nl +:+ Js.substring0 1900 message +:+ "```") false]) ∧
  out (handleError env err i w) = Returned tt ∧
  after (handleError env err i w) = w ∧
  hd_error (emitted (handleError env err None w)) =
    Some (ConsoleLog (caught env (shownStack err))) ∧
  (debugMode cfg = true →
   out (sendDebug env message cfg None w) = Returned tt ∧
   hd_error (emitted (sendDebug env message cfg None w)) =
     Some (ConsoleLog (debugLine env message))).
Proof.
  split; [apply sendLogMessage_result|].
  split.
  { intros c e Hr Hc He. rewrite sendLogMessage_result.
    unfold mirrorOutcome, mirrored. rewrite Hr, Hc, He. done. }
  destruct (handleError_settles 0 err i w) as (_ & Ho & Ha).
  split; [done|]. split; [done|]. split.
  - by rewrite handleError_plain.
  - intros Hd. by rewrite sendDebug_plain.
Qed.

End LogDebugFacts.

Lemma reporting_prints_always_and_swallows_mirror_failures_witness :
  let env := Sample.env Sample.deafChannels [] (inr (mkPowerupData 0))
                        (fun _ => FetchResolves) 0%Z in
  let r := LogDebug.handleError env (Js.ThrownString "boom") None Sample.world in
  Eff.out r = Eff.Returned tt ∧
  Eff.emitted r =
    [ConsoleLog (LogDebug.caught env (Some "boom"));
     ChannelText "log-channel"
       ("```ansi" +:+ LogDebug.nl +:+ LogDebug.caught env (Some "boom") +:+ "```")
       false].
Proof.
  intros env r.
  destruct (reporting_prints_always_and_swallows_mirror_failures
              env "x" Sample.cfg (Js.ThrownString "boom") None Sample.world)
    as (_ & _ & Ho & _).
  split; [exact Ho | by vm_compute].
Defined.

(* ===================================================================== *)
(** * The poller: configuration fingerprint, update feed, quest window *)
(* ===================================================================== *)

Section BoarBotFacts.
Import Eff BoarBot Obs.
Variable env : Env.

Lemma getConfigHash_result w bytes :
  configJson (disk w) = Some bytes →
  getConfigHash w = mkResult (Returned (Sha256.hexdigest bytes)) w [].
Proof. intros H. unfold getConfigHash. run. by rewrite H. Qed.

Lemma report_is_update_event e :
  LogDebug.isReportEvent e = true → isUpdateInfoEvent e = true.
Proof. by destruct e. Qed.

Lemma reported_update_events line cfg :
  forallb isUpdateInfoEvent (LogDebug.reported env line cfg) = true.
Proof.
  apply forallb_forall. intros e He. apply report_is_update_event.
  pose proof (reported_events env line cfg) as H.
  rewrite forallb_forall in H. by apply H.
Qed.

Ltac events :=
  cbn [forallb app isUpdateInfoEvent andb];
  rewrite ?forallb_app, ?reported_update_events; done.

(** [sendUpdateInfo] never throws and touches nothing but the cursor file. *)
Lemma sendUpdateInfo_settles gd w :
  ∃ w' evs,
    sendUpdateInfo env gd w = mkResult (Returned tt) w' evs ∧
    config w' = config w ∧ configHash w' = configHash w ∧
    powSpawner w' = powSpawner w ∧
    forallb isUpdateInfoEvent evs = true.
Proof.
  unfold sendUpdateInfo. run.
  destruct gd as [gd|]; [|by eauto 10]. run.
  destruct (axiosGet env (pullLink (config w))) as [e|[|pr rest]]; run.
  - rewrite handleError_plain. run. eexists _, _. split; [done|].
    repeat split; try done. events.
  - by eauto 10.
  - destruct (negb _ && _); [|by eauto 10]. run.
    destruct (writable (disk w)); run.
    2: { rewrite handleError_plain. run. eexists _, _. split; [done|].
         repeat split; try done. events. }
    destruct (getTextChannel env (updatesChannel (config w))) as [c| |e]; run.
    + destruct (body pr) as [msg|]; run.
      * destruct (sendError c); run; by eauto 10.
      * rewrite handleError_plain. run. eexists _, _. split; [done|].
        repeat split; try done. events.
    + destruct (body pr) as [msg|]; run; [by eauto 10|].
      rewrite handleError_plain. run. eexists _, _. split; [done|].
      repeat split; try done. events.
    + rewrite handleError_plain. run. eexists _, _. split; [done|].
      repeat split; try done. events.
Qed.
Lemma reported_no_announcement line cfg :
  announcements (LogDebug.reported env line cfg) = [] ∧
  List.filter isFileWritten (LogDebug.reported env line cfg) = [].
Proof.
  unfold announcements, LogDebug.reported, LogDebug.mirrored.
  destruct (LogDebug.mirrorOutcome env cfg), (clientReady env); simpl;
    try done; by destruct (getTextChannel env (logChannel cfg)).
Qed.

Lemma update_events_neutral evs :
  forallb isUpdateInfoEvent evs = true →
  forallb (fun e => negb (isLoadConfig e)) evs = true ∧
  List.filter isQuestUpdate evs = [].
Proof.
  induction evs as [|e evs IH]; [done|]. cbn [forallb List.filter].
  intros [He Hevs]%andb_true_iff. destruct (IH Hevs) as [IH1 IH2].
  rewrite IH1, IH2. by destruct e.
Qed.

Ltac update_info :=
  match goal with
  | |- context [sendUpdateInfo env ?g ?w0] =>
      let w2 := fresh "w2" in
      let evs := fresh "evs" in
      let Hc := fresh "Hcfg" in
      let Hh := fresh "Hhash" in
      let Hev := fresh "Hevs" in
      destruct (sendUpdateInfo_settles g w0) as (w2 & evs & -> & Hc & Hh & _ & Hev);
      cbn [config configHash] in Hc, Hh
  end.


(** C5 (amended).  On a poll tick that runs to its end, the quest data is
    regenerated (once) when the current time is strictly greater than the
    stored start timestamp plus seven days, and is not regenerated when the
    current time is less than or equal to it. *)
Theorem quest_regenerated_iff_strictly_past_seven_days (w : World) (q : QuestData) :
  getQuest env = inr q →
  out (pollTick env w) = Returned tt →
  let r := pollTick env w in
  let expiry := (questsStartTimestamp q + oneDay (config (after r)) * 7)%Z in
  ((expiry < dateNow env)%Z →
   List.filter isQuestUpdate (emitted r) = [QuestDataUpdated]) ∧
  ((dateNow env ≤ expiry)%Z →
   List.filter isQuestUpdate (emitted r) = []).
Proof.
  intros Hq Hout r expiry. subst expiry r. revert Hout.
  destruct (configJson (disk w)) as [bytes|] eqn:Hfile.
  2: { unfold pollTick, getConfigHash. run. rewrite Hfile. done. }
  unfold pollTick, getQuestData. run.
  rewrite !(getConfigHash_result _ bytes) by done. run.
  destruct (configHash w =? Sha256.hexdigest bytes)%string; cbn [negb]; run.
  - update_info. destruct (update_events_neutral _ Hevs) as [_ Hnq].
    rewrite Hq. run.
    destruct (Z.ltb_spec (questsStartTimestamp q + oneDay (config w) * 7) (dateNow env));
      run; rewrite Hcfg; intros _; split; intros Hlt; try lia;
      cbn [List.filter isQuestUpdate]; rewrite List.filter_app, Hnq; done.
  - rewrite !(getConfigHash_result _ bytes) by done. run.
    unfold loadConfig. run. rewrite Hfile.
    destruct (configFromFile env bytes) as [e|c]; run; [done|].
    update_info. destruct (update_events_neutral _ Hevs) as [_ Hnq].
    rewrite Hq. run.
    destruct (Z.ltb_spec (questsStartTimestamp q + oneDay c * 7) (dateNow env));
      run; rewrite Hcfg; intros _; split; intros Hlt; try lia;
      cbn [List.filter isQuestUpdate]; rewrite List.filter_app, Hnq; done.
Qed.

End BoarBotFacts.




Lemma quest_regenerated_iff_strictly_past_seven_days_witness :
  let env := Sample.env Sample.allChannels [] (inr (mkPowerupData 0))
               (fun _ => FetchResolves) 604800001%Z in
  List.filter Obs.isQuestUpdate (Eff.emitted (BoarBot.pollTick env Sample.world)) =
  [QuestDataUpdated].
Proof.
  intros env.
  refine (proj1 (quest_regenerated_iff_strictly_past_seven_days env Sample.world
                   (mkQuestData 0) eq_refl _) _).
  - by vm_compute.
  - by vm_compute.
Defined.

(** Exactly seven days after the start of the window ([now = start + 7
    days]) the tick leaves the quest data alone. *)
Lemma quest_not_regenerated_at_exactly_seven_days :
  let env := Sample.env Sample.allChannels [] (inr (mkPowerupData 0))
               (fun _ => FetchResolves) 604800000%Z in
  let r := BoarBot.pollTick env Sample.world in
  getQuest env = inr (mkQuestData 0) ∧
  (dateNow env >= 0 + oneDay (config Sample.world) * 7)%Z ∧
  Eff.out r = Eff.Returned tt ∧
  ¬ In QuestDataUpdated (Eff.emitted r).
Proof.
  vm_compute. split; [done|]. split; [by intros [=]|]. split; [done|].
  intros H. repeat (destruct H as [H|H]; [discriminate H|]). exact H.
Qed.



(* ===================================================================== *)
(** * The startup sweep of the guild data folder *)
(* ===================================================================== *)

Section SweepFacts.
Import Eff BoarBot Obs.
Variable env : Env.

Lemma for_each_cons {A} (x : A) xs body w :
  for_each (x :: xs) body w =
  match body x w with
  | mkResult (Returned _) w1 ev1 =>
      match for_each xs body w1 with
      | mkResult o w2 ev2 => mkResult o w2 (ev1 ++ ev2)
      end
  | mkResult (Raised e) w1 ev1 => mkResult (Raised e) w1 ev1
  | mkResult (Exited c) w1 ev1 => mkResult (Exited c) w1 ev1
  end.
Proof. reflexivity. Qed.

Lemma lookupFile_skip n kept l :
  ¬ In n (List.map fst kept) →
  Fs.lookupFile n (kept ++ l) = Fs.lookupFile n l.
Proof.
  induction kept as [|[m c] kept IH]; [done|]. simpl. intros Hn.
  destruct (String.eqb_spec m n) as [->|_]; [tauto|]. apply IH. tauto.
Qed.

Lemma lookupFile_here n c l : Fs.lookupFile n ((n, c) :: l) = Some c.
Proof. simpl. by rewrite String.eqb_refl. Qed.

Lemma removeFile_absent n l :
  ¬ In n (List.map fst l) → Fs.removeFile n l = l.
Proof.
  induction l as [|[m c] l IH]; [done|]. simpl. intros Hn.
  destruct (String.eqb_spec m n) as [->|_]; [tauto|]. simpl.
  f_equal. apply IH. tauto.
Qed.

Lemma removeFile_middle n c kept l :
  ¬ In n (List.map fst (kept ++ l)) →
  Fs.removeFile n (kept ++ (n, c) :: l) = kept ++ l.
Proof.
  intros Hn. unfold Fs.removeFile. rewrite List.filter_app. simpl.
  rewrite String.eqb_refl. simpl.
  rewrite List.map_app, in_app_iff in Hn.
  fold (Fs.removeFile n kept). fold (Fs.removeFile n l).
  rewrite !removeFile_absent by tauto. done.
Qed.

Lemma sweepFile_run folder n c kept l w :
  guildDir (disk w) = Some (kept ++ (n, c) :: l) →
  writable (disk w) = true →
  ¬ In n (List.map fst (kept ++ l)) →
  match verdict c with
  | None => ∃ e, sweepFile folder n w = mkResult (Raised e) w []
  | Some b =>
      ∃ w', sweepFile folder n w = mkResult (Returned tt) w' (sweepEvents folder (n, c)) ∧
            guildDir (disk w') = Some (if b then kept ++ (n, c) :: l else kept ++ l) ∧
            writable (disk w') = true ∧ config w' = config w
  end.
Proof.
  intros Hdir Hw Hn. unfold sweepFile, sweepEvents, isKept, verdict.
  cbn [snd fst]. run.
  rewrite Hdir. rewrite lookupFile_skip
    by (rewrite List.map_app, in_app_iff in Hn; tauto).
  rewrite lookupFile_here.
  destruct c as [|v]; [by eexists|]. run.
  destruct (Js.property "fullySetup" v) as [e|x]; run; [by eexists|].
  cbn [snd fst]. destruct (Js.truthy x); run.
  - rewrite bool_decide_eq_true_2 by done. exists w. by repeat split.
  - rewrite bool_decide_eq_false_2 by done. rewrite Hdir.
    rewrite lookupFile_skip by (rewrite List.map_app, in_app_iff in Hn; tauto).
    rewrite lookupFile_here, Hw. run.
    eexists. split; [done|]. cbn. by rewrite removeFile_middle.
Qed.

(** The loop over a stretch [todo] of the folder, all of whose files have a
    verdict: what comes before and after the stretch is left alone. *)
Lemma sweep_stretch folder todo : ∀ kept rest w,
  guildDir (disk w) = Some (kept ++ todo ++ rest) →
  writable (disk w) = true →
  List.NoDup (List.map fst (kept ++ todo ++ rest)) →
  Forall (fun e => is_Some (verdict (snd e))) todo →
  ∃ w',
    for_each (List.map fst todo) (sweepFile folder) w =
      mkResult (Returned tt) w' (flat_map (sweepEvents folder) todo) ∧
    guildDir (disk w') = Some (kept ++ List.filter isKept todo ++ rest) ∧
    writable (disk w') = true ∧ config w' = config w.
Proof.
  induction todo as [|[n c] todo IH]; intros kept rest w Hdir Hw Hnd Hall.
  - exists w. by repeat split.
  - apply Forall_cons in Hall as [[b Hb] Hall]. cbn [snd] in Hb.
    cbn [List.map fst]. rewrite for_each_cons.
    change (kept ++ ((n, c) :: todo) ++ rest)
      with (kept ++ (n, c) :: (todo ++ rest)) in *.
    rewrite List.map_app in Hnd. cbn [List.map fst] in Hnd.
    pose proof (List.NoDup_remove_1 _ _ _ Hnd) as Hnd'.
    pose proof (List.NoDup_remove_2 _ _ _ Hnd) as Hn.
    rewrite <- List.map_app in Hnd', Hn.
    pose proof (sweepFile_run folder n c kept (todo ++ rest) w Hdir Hw Hn) as Hstep.
    rewrite Hb in Hstep. destruct Hstep as (w1 & -> & Hdir1 & Hw1 & Hc1).
    cbn [flat_map List.filter]. unfold isKept at 1. cbn [snd]. rewrite Hb.
    destruct b.
    + rewrite bool_decide_eq_true_2 by done.
      destruct (IH (kept ++ [(n, c)]) rest w1) as (w2 & -> & Hdir2 & Hw2 & Hc2);
        try done.
      * by rewrite <- app_assoc.
      * rewrite <- app_assoc. cbn [app]. rewrite List.map_app. exact Hnd.
      * exists w2. split; [done|]. split; [|split; [done | congruence]].
        rewrite Hdir2. by rewrite <- app_assoc.
    + rewrite bool_decide_eq_false_2 by done.
      destruct (IH kept rest w1) as (w2 & -> & Hdir2 & Hw2 & Hc2); try done.
      exists w2. split; [done|]. split; [done|]. split; [done | congruence].
Qed.
Lemma for_each_app {A} (xs ys : list A) body w :
  for_each (xs ++ ys) body w =
  match for_each xs body w with
  | mkResult (Returned _) w1 ev1 =>
      match for_each ys body w1 with
      | mkResult o w2 ev2 => mkResult o w2 (ev1 ++ ev2)
      end
  | r => r
  end.
Proof.
  revert w. induction xs as [|x xs IH]; intros w.
  - simpl. unfold ret. by destruct (for_each ys body w).
  - cbn [app]. rewrite !for_each_cons.
    destruct (body x w) as [[[]|e|c] w1 ev1]; try done.
    rewrite IH. destruct (for_each xs body w1) as [[[]|e|c] w2 ev2]; try done.
    destruct (for_each ys body w2) as [o w3 ev3]. by rewrite app_assoc.
Qed.

Lemma sweepFile_malformed folder n kept l w :
  guildDir (disk w) = Some (kept ++ (n, Malformed) :: l) →
  ¬ In n (List.map fst kept) →
  sweepFile folder n w = mkResult (Raised Js.syntaxError) w [].
Proof.
  intros Hdir Hn. unfold sweepFile. run.
  by rewrite Hdir, lookupFile_skip, lookupFile_here.
Qed.

Lemma record_verdict c b : fullySetupOf c = Some b → verdict c = Some b.
Proof.
  unfold fullySetupOf, verdict. destruct c as [|[]]; try done. simpl.
  by destruct (Js.member "fullySetup" members) as [[]|]; intros [= ->].
Qed.

Lemma records_have_verdicts entries :
  Forall (fun e => is_Some (fullySetupOf (snd e))) entries →
  Forall (fun e => is_Some (verdict (snd e))) entries ∧
  List.filter isKept entries = List.filter isComplete entries.
Proof.
  induction 1 as [|e entries [b Hb] _ [IH1 IH2]]; [done|]. split.
  - apply Forall_cons. split; [|done]. exists b. by apply record_verdict.
  - cbn [List.filter]. rewrite IH2. unfold isKept, isComplete.
    rewrite (record_verdict _ _ Hb), Hb. done.
Qed.

Lemma removals_of_records folder entries tl :
  Forall (fun e => is_Some (fullySetupOf (snd e))) entries →
  List.filter isRemoval tl = [] →
  List.filter isRemoval (flat_map (sweepEvents folder) entries ++ tl) =
  List.map (fun e => FileRemoved (folder +:+ fst e))
           (List.filter isIncomplete entries).
Proof.
  intros Hall Htl. induction Hall as [|e entries [b Hb] _ IH]; [done|].
  cbn [flat_map List.filter]. rewrite <- app_assoc.
  unfold sweepEvents at 1, isKept, isIncomplete at 1.
  rewrite (record_verdict _ _ Hb), Hb. destruct b.
  - rewrite bool_decide_eq_true_2, bool_decide_eq_false_2 by done. exact IH.
  - rewrite bool_decide_eq_false_2, bool_decide_eq_true_2 by done.
    cbn [app List.filter isRemoval List.map]. by rewrite IH.
Qed.

(** C3.  After the startup sweep of a guild data folder that holds guild
    records, exactly the records whose [fullySetup] flag is true remain, in
    place and unchanged, and exactly the files of the records whose flag is
    false have been removed. *)
Theorem guild_sweep_keeps_exactly_fully_setup
    (w : World) (entries : list (string * FileContent)) :
  guildDir (disk w) = Some entries →
  databaseDir (disk w) = true →
  writable (disk w) = true →
  List.NoDup (List.map fst entries) →
  Forall (fun e => is_Some (fullySetupOf (snd e))) entries →
  let r := fixGuildData env w in
  let folder := databaseFolder (config w) +:+ guildDataFolder (config w) in
  out r = Returned tt ∧
  guildDir (disk (after r)) = Some (List.filter isComplete entries) ∧
  List.filter isRemoval (emitted r) =
    List.map (fun e => FileRemoved (folder +:+ fst e))
             (List.filter isIncomplete entries).
Proof.
  intros Hdir Hdb Hw Hnd Hall r folder. subst r folder.
  destruct (records_have_verdicts _ Hall) as [Hv Hfilter].
  unfold fixGuildData. run. rewrite Hdb, Hdir.
  rewrite bool_decide_eq_true_2 by done. run. rewrite Hdir. run.
  destruct (sweep_stretch
              (databaseFolder (config w) +:+ guildDataFolder (config w))
              entries [] [] w) as (w' & -> & Hdir' & _); rewrite ?app_nil_r; try done.
  run. split; [done|]. split.
  - rewrite Hdir'. cbn [app]. by rewrite app_nil_r, Hfilter.
  - by apply removals_of_records.
Qed.

(** C7 (amended).  A file that is not valid JSON stops the sweep with the
    parse error: the records listed before it have been treated according
    to their own [fullySetup] flag, and the malformed file and every file
    listed after it are left on disk as they were. *)
Theorem guild_sweep_stops_at_malformed_file
    (w : World) (pre post : list (string * FileContent)) (name : string) :
  guildDir (disk w) = Some (pre ++ (name, Malformed) :: post) →
  databaseDir (disk w) = true →
  writable (disk w) = true →
  List.NoDup (List.map fst (pre ++ (name, Malformed) :: post)) →
  Forall (fun e => is_Some (fullySetupOf (snd e))) pre →
  let r := fixGuildData env w in
  out r = Raised Js.syntaxError ∧
  guildDir (disk (after r)) =
    Some (List.filter isComplete pre ++ (name, Malformed) :: post).
Proof.
  intros Hdir Hdb Hw Hnd Hall r. subst r.
  destruct (records_have_verdicts _ Hall) as [Hv Hfilter].
  unfold fixGuildData. run. rewrite Hdb, Hdir.
  rewrite bool_decide_eq_true_2 by done. run. rewrite Hdir. run.
  rewrite List.map_app. cbn [List.map fst]. rewrite for_each_app.
  destruct (sweep_stretch
              (databaseFolder (config w) +:+ guildDataFolder (config w))
              pre [] ((name, Malformed) :: post) w) as (w' & -> & Hdir' & _);
    try done.
  cbn [app] in Hdir'. rewrite Hfilter in Hdir'.
  rewrite for_each_cons.
  rewrite (sweepFile_malformed _ name (List.filter isComplete pre) post w' Hdir').
  - run. by rewrite Hdir'.
  - intros Hin. rewrite List.map_app in Hnd. cbn [List.map fst] in Hnd.
    apply List.NoDup_remove_2 in Hnd. apply Hnd, in_app_iff. left.
    apply in_map_iff in Hin as ([n c] & <- & Hin). apply in_map_iff.
    exists (n, c). split; [done|]. by apply List.filter_In in Hin as [Hin _].
Qed.
End SweepFacts.


Lemma guild_sweep_keeps_exactly_fully_setup_witness :
  let env := Sample.env Sample.allChannels [] (inr (mkPowerupData 0))
               (fun _ => FetchResolves) 0%Z in
  let r := BoarBot.fixGuildData env Sample.world in
  Eff.out r = Eff.Returned tt ∧
  guildDir (disk (Eff.after r)) = Some [("B.json", Sample.guildB)].
Proof.
  intros env r.
  destruct (guild_sweep_keeps_exactly_fully_setup env Sample.world
              [("A.json", Sample.guildA); ("B.json", Sample.guildB)])
    as (Ho & Hd & _); try done.
  - repeat constructor; simpl; intros H; repeat destruct H as [H|H]; done.
  - repeat constructor; by eexists.
Defined.

Lemma guild_sweep_stops_at_malformed_file_witness :
  let env := Sample.env Sample.allChannels [] (inr (mkPowerupData 0))
               (fun _ => FetchResolves) 0%Z in
  let w := Obs.withGuildDir
             [("A.json", Sample.guildA); ("M.json", Malformed);
              ("B.json", Sample.guildB)] Sample.world in
  guildDir (disk (Eff.after (BoarBot.fixGuildData env w))) =
  Some [("M.json", Malformed); ("B.json", Sample.guildB)].
Proof.
  intros env w.
  destruct (guild_sweep_stops_at_malformed_file env w
              [("A.json", Sample.guildA)] [("B.json", Sample.guildB)] "M.json")
    as (_ & Hd); try done.
  - repeat constructor; simpl; intros H; repeat destruct H as [H|H]; done.
  - repeat constructor; by eexists.
Defined.

(** A malformed first file stops the sweep: the unfinished record listed
    after it is not deleted. *)
Lemma malformed_file_shields_later_unfinished_record :
  let env := Sample.env Sample.allChannels [] (inr (mkPowerupData 0))
               (fun _ => FetchResolves) 0%Z in
  let w := Obs.withGuildDir
             [("0.json", Malformed); ("A.json", Sample.guildA)] Sample.world in
  let r := BoarBot.fixGuildData env w in
  Obs.fullySetupOf Sample.guildA = Some false ∧
  Eff.out r = Eff.Raised Js.syntaxError ∧
  guildDir (disk (Eff.after r)) =
    Some [("0.json", Malformed); ("A.json", Sample.guildA)].
Proof. by vm_compute. Qed.

(* ===================================================================== *)
(** * Startup hooks: powerup spawner and user cache *)
(* ===================================================================== *)

Section StartFacts.
Import Eff BoarBot Obs.
Variable env : Env.

Lemma warmUser_result userFile w :
  warmUser env userFile w =
  mkResult (Returned tt) w (warmEvents env (config w) userFile).
Proof.
  unfold warmUser, fetchUser, warmEvents. run.
  destruct (usersFetch env (Js.before "." userFile)) as [|e|e]; run; try done.
  rewrite handleError_plain. done.
Qed.

Lemma warmUserCache_result userFiles w :
  warmUserCache env userFiles w =
  mkResult (Returned tt) w (flat_map (warmEvents env (config w)) userFiles).
Proof.
  unfold warmUserCache. induction userFiles as [|f fs IH]; [done|].
  rewrite for_each_cons, warmUser_result, IH. done.
Qed.

Lemma fetched_app l1 l2 : fetched (l1 ++ l2) = fetched l1 ++ fetched l2.
Proof.
  induction l1 as [|e l1 IH]; [done|]. destruct e; simpl; by rewrite ?IH.
Qed.

Lemma fetched_reported line cfg : fetched (LogDebug.reported env line cfg) = [].
Proof.
  unfold LogDebug.reported, LogDebug.mirrored. simpl. rewrite fetched_app.
  destruct (LogDebug.mirrorOutcome env cfg), (clientReady env); simpl; try done;
    by destruct (getTextChannel env (logChannel cfg)).
Qed.

Lemma fetched_warmEvents cfg f :
  fetched (warmEvents env cfg f) = [Js.before "." f].
Proof.
  unfold warmEvents. destruct (usersFetch env (Js.before "." f)); [done|done|].
  cbn [fetched]. by rewrite fetched_reported.
Qed.

Lemma armPowerups_result w :
  armPowerups env w =
  match getPowerups env with
  | inr pd =>
      mkResult (Returned tt)
        (mkWorld (disk w) (config w) (configHash w)
                 (Some (mkSpawner (nextPowerup pd) true)))
        ([QueueBegan "startglobal"; GlobalRead Powerups;
          QueueEnded "startglobal"; SpawnerCreated (nextPowerup pd);
          SpawnerStarted])
  | inl err =>
      mkResult (Returned tt)
        (mkWorld (disk w) (config w) (configHash w) (Some (mkSpawner 0 true)))
        ([QueueBegan "startglobal"; GlobalRead Powerups] ++
         LogDebug.reported env (LogDebug.caught env (LogDebug.shownStack err))
                           (config w) ++
         [QueueEnded "startglobal"; SpawnerCreated 0; SpawnerStarted])
  end.
Proof.
  unfold armPowerups, addQueue, getPowerupData. run.
  destruct (getPowerups env) as [err|pd]; run; [|done].
  rewrite handleError_plain. run. by rewrite <- !app_assoc.
Qed.

(** The cache-warming block settles or throws, and leaves the spawner
    alone. *)
Lemma warmCache_settles w :
  ∃ o w' evs,
    warmCache env w = mkResult o w' evs ∧
    powSpawner w' = powSpawner w ∧ config w' = config w ∧
    (o = Returned tt ∨ ∃ e, o = Raised e).
Proof.
  unfold warmCache. run.
  destruct (userDir (disk w)) as [names|] eqn:Hdir.
  - rewrite bool_decide_eq_true_2 by done. run. rewrite Hdir. run.
    rewrite warmUserCache_result. run. eauto 10.
  - rewrite bool_decide_eq_false_2 by (intros H; by apply H). run.
    destruct (writable (disk w)); run; [|by eauto 10].
    rewrite warmUserCache_result. run. eauto 10.
Qed.

(** C6.  When the read of the global powerup record, queued under the key
    ["start" + "global" = "startglobal"], succeeds with [nextPowerup = n],
    [onStart] creates the spawner with initial countdown [n] and starts it,
    after the queued read has ended. *)
Theorem powerup_countdown_read_before_spawner_starts
    (w : World) (bytes : list Byte.byte) (pd : PowerupData) :
  configJson (disk w) = Some bytes →
  getPowerups env = inr pd →
  let r := onStart env w in
  out r = Returned tt ∧
  powSpawner (after r) = Some (mkSpawner (nextPowerup pd) true) ∧
  ∃ rest,
    emitted r =
    startEvents ++
    [QueueBegan "startglobal"; GlobalRead Powerups] ++
    spawnEvents (nextPowerup pd) ++ rest.
Proof.
  intros Hfile Hpd r. subst r. unfold onStart, getConfigHash. run.
  rewrite Hfile. run. rewrite armPowerups_result, Hpd. run.
  match goal with |- context [warmCache env ?w1] =>
    destruct (warmCache_settles w1) as (o & w' & evs & -> & Hs & Hc & [->|[e ->]])
  end; run.
  - split; [done|]. split; [done|]. by eexists.
  - rewrite handleError_plain. run. split; [done|]. split; [done|]. by eexists.
Qed.

(** C10.  When the queued read of the global powerup record throws,
    [onStart] goes on: the error is reported by [handleError] inside the
    queued unit, the countdown keeps its initial value 0, and the spawner is
    created with countdown 0 and started, followed by the presence update
    and the readiness log. *)
Theorem failed_powerup_read_is_reported_and_spawner_starts_at_zero
    (w : World) (bytes : list Byte.byte) (err : Js.Thrown) :
  configJson (disk w) = Some bytes →
  getPowerups env = inl err →
  let r := onStart env w in
  out r = Returned tt ∧
  powSpawner (after r) = Some (mkSpawner 0 true) ∧
  ∃ rest,
    emitted r =
    startEvents ++
    [QueueBegan "startglobal"; GlobalRead Powerups] ++
    LogDebug.reported env (LogDebug.caught env (LogDebug.shownStack err))
                      (config w) ++
    spawnEvents 0 ++ rest.
Proof.
  intros Hfile Hpd r. subst r. unfold onStart, getConfigHash. run.
  rewrite Hfile. run. rewrite armPowerups_result, Hpd. run.
  match goal with |- context [warmCache env ?w1] =>
    destruct (warmCache_settles w1) as (o & w' & evs & -> & Hs & Hc & [->|[e ->]])
  end; run.
  - split; [done|]. split; [done|]. eexists.
    rewrite <- !app_assoc. cbn [app]. reflexivity.
  - rewrite handleError_plain. run. split; [done|]. split; [done|]. eexists.
    rewrite <- !app_assoc. cbn [app]. reflexivity.
Qed.

End StartFacts.


(** C8.  The cache-warming loop fetches the user of every file, in order,
    and always runs to its end; but the promise of [users.fetch] is dropped,
    so when every fetch is rejected the loop emits, for each file, the
    fetch, the unhandled rejection and the sleep, and prints nothing: the
    ["Failed to find user"] report is never made.  So it is for the single
    file [123.json] of a user unknown to Discord. *)
Theorem rejected_user_fetch_is_never_logged
    (env : Env) (userFiles : list string) (e : Js.Thrown) (w : World) :
  let r := BoarBot.warmUserCache env userFiles w in
  let rejecting := Obs.withFetch (fun _ => FetchRejects e) env in
  Eff.out r = Eff.Returned tt ∧
  Obs.fetched (Eff.emitted r) = List.map (Js.before ".") userFiles ∧
  Eff.emitted (BoarBot.warmUserCache rejecting userFiles w) =
    flat_map (fun f => [UserFetch (Js.before "." f); UnhandledRejection e;
                        Slept 1000]) userFiles ∧
  List.filter Obs.isConsoleLog
    (Eff.emitted (BoarBot.warmUserCache rejecting userFiles w)) = [] ∧
  Eff.emitted
    (BoarBot.warmUserCache
       (Sample.env Sample.allChannels [] (inr (mkPowerupData 0))
                   (fun _ => FetchRejects Sample.rejection) 0%Z)
       ["123.json"] Sample.world) =
  [UserFetch "123"; UnhandledRejection Sample.rejection; Slept 1000].
Proof.
  intros r rejecting. subst r.
  assert (Eff.emitted (BoarBot.warmUserCache rejecting userFiles w) =
          flat_map (fun f => [UserFetch (Js.before "." f); UnhandledRejection e;
                              Slept 1000]) userFiles) as Hrej.
  { rewrite warmUserCache_result. done. }
  rewrite Hrej, warmUserCache_result. cbn [Eff.out Eff.emitted].
  split; [done|]. split; [|split; [done|split; [|reflexivity]]].
  - clear Hrej. induction userFiles as [|f fs IH]; [done|].
    cbn [flat_map List.map]. by rewrite fetched_app, fetched_warmEvents, IH.
  - clear Hrej. induction userFiles as [|f fs IH]; [done|]. exact IH.
Qed.

Lemma powerup_countdown_read_before_spawner_starts_witness :
  let env := Sample.env Sample.allChannels [] (inr (mkPowerupData 5000))
               (fun _ => FetchResolves) 0%Z in
  let r := BoarBot.onStart env Sample.world in
  powSpawner (Eff.after r) = Some (mkSpawner 5000 true) ∧
  ∃ rest,
    Eff.emitted r =
    Obs.startEvents ++
    [QueueBegan "startglobal"; GlobalRead Powerups] ++
    Obs.spawnEvents 5000 ++ rest.
Proof.
  intros env r.
  destruct (powerup_countdown_read_before_spawner_starts env Sample.world
              Sample.configBytes (mkPowerupData 5000) eq_refl eq_refl)
    as (_ & Hs & Hev).
  split; [exact Hs | exact Hev].
Defined.

Lemma failed_powerup_read_is_reported_and_spawner_starts_at_zero_witness :
  let env := Sample.env Sample.allChannels []
               (inl (Js.ThrownError (Some "SyntaxError: Unexpected end of JSON input")))
               (fun _ => FetchResolves) 0%Z in
  let r := BoarBot.onStart env Sample.world in
  Eff.out r = Eff.Returned tt ∧
  powSpawner (Eff.after r) = Some (mkSpawner 0 true).
Proof.
  intros env r.
  destruct (failed_powerup_read_is_reported_and_spawner_starts_at_zero env
              Sample.world Sample.configBytes
              (Js.ThrownError (Some "SyntaxError: Unexpected end of JSON input"))
              eq_refl eq_refl)
    as (Ho & Hs & _).
  split; [exact Ho | exact Hs].
Defined.

(* ===================================================================== *)
(** * More on [LogDebug.ts] *)
(* ===================================================================== *)

Section LogDebugMore.
Import Eff LogDebug Obs.
Variable env : Env.

Lemma substring0_length n s : String.length (Js.substring0 n s) ≤ n.
Proof.
  unfold Js.substring0. revert s. induction n as [|n IH]; intros [|c s]; simpl; try lia.
  specialize (IH s). lia.
Qed.

Lemma append_length a b :
  String.length (a +:+ b) = String.length a + String.length b.
Proof. induction a as [|c a IH]; simpl; [done | by rewrite IH]. Qed.

Lemma sentTexts_app l1 l2 : sentTexts (l1 ++ l2) = sentTexts l1 ++ sentTexts l2.
Proof. induction l1 as [|e l1 IH]; [done|]. destruct e; simpl; by rewrite ?IH. Qed.

Lemma replies_app l1 l2 : replies (l1 ++ l2) = replies l1 ++ replies l2.
Proof. apply List.filter_app. Qed.

Lemma replies_reported line cfg : replies (reported env line cfg) = [].
Proof.
  unfold replies, reported, mirrored.
  destruct (mirrorOutcome env cfg), (clientReady env); simpl; try done;
    by destruct (getTextChannel env (logChannel cfg)).
Qed.

Lemma filter_reply_mirrored line cfg :
  List.filter isReply (mirrored env line cfg) = [].
Proof.
  unfold mirrored. destruct (clientReady env); [|done].
  by destruct (getTextChannel env (logChannel cfg)).
Qed.

Lemma filter_reply_reported line cfg :
  List.filter isReply (reported env line cfg) = [].
Proof. apply replies_reported. Qed.

(** X1.  Whatever the line, what [sendLogMessage] sends to the log channel is
    at most 1911 characters long: the line is cut to 1900 characters before
    it is fenced. *)
Theorem log_mirror_fits_discord_message message cfg w :
  Forall (fun text => String.length text ≤ 1911)
         (sentTexts (emitted (sendLogMessage env message cfg w))).
Proof.
  rewrite sendLogMessage_result. cbn [emitted sentTexts]. unfold mirrored.
  destruct (clientReady env); [|constructor].
  destruct (getTextChannel env (logChannel cfg)); try constructor; [|constructor].
  rewrite !append_length. pose proof (substring0_length 1900 message).
  simpl. lia.
Qed.

(** X2.  Called with [null] or [undefined], [handleError] behaves as if it
    had been called, without the interaction, with the [TypeError] that
    reading [stack] throws: the interaction gets no reply. *)
Theorem handleError_of_nullish_reports_type_error i w :
  handleError env Js.ThrownNullish i w = handleError env stackOfNullish None w.
Proof.
  unfold handleError. rewrite handleErrorWithin_step, report_nullish.
  rewrite !handleErrorWithin_plain. done.
Qed.

(** X3.  [handleError] replies to the interaction at most once, with the
    configured error text and colour; it does not reply at all when the
    error has no [stack] to read, when the interaction is an autocomplete,
    or when it is a command without subcommand.  A failing mirror of the
    line to the log channel does not change this. *)
Theorem handleError_replies_at_most_once err i w :
  replies (emitted (handleError env err (Some i) w)) =
  if silent err i then []
  else [InteractionReply (errorString (config w)) (colorError (config w))].
Proof.
  unfold handleError, silent. rewrite handleErrorWithin_step.
  destruct err as [s|stack|]; cbn [orb].
  3: { rewrite report_nullish. rewrite handleErrorWithin_plain. cbn [emitted app].
       apply replies_reported. }
  all: unfold report, commandPrefix, isChatInputCommand, isAutocomplete.
  all: destruct (kind i), (subcommand i) as [sub|]; run.
  all: rewrite ?sendLogMessage_result; cbn [out after emitted].
  all: destruct (mirrorOutcome_cases env (config w)) as [Hm|[e Hm]]; rewrite ?Hm; run.
  all: rewrite ?sendLogMessage_result, ?Hm; run.
  all: try (destruct (replyError i) as [re|]; run).
  all: rewrite ?handleErrorWithin_plain; cbn [out after emitted andb orb].
  all: rewrite ?bool_decide_eq_true_2 by done.
  all: rewrite ?bool_decide_eq_false_2 by done.
  all: cbn [andb orb].
  all: unfold replies; cbn [List.filter isReply app];
       rewrite ?List.filter_app; cbn [List.filter isReply app];
       rewrite ?List.filter_app; cbn [List.filter isReply app];
       rewrite ?filter_reply_mirrored, ?filter_reply_reported; done.
Qed.
Lemma mirrored_when_lookup_fails line cfg e :
  mirrorOutcome env cfg = Raised e → mirrored env line cfg = [].
Proof.
  unfold mirrorOutcome, mirrored. destruct (clientReady env); [|done].
  by destruct (getTextChannel env (logChannel cfg)).
Qed.

(** X4.  [sendDebug] never changes the state.  With debug mode off it does
    nothing.  For an interaction that is not a message component and has no
    subcommand it throws before anything is printed.  Otherwise it returns
    and its line is printed on the console exactly once. *)
Theorem sendDebug_prints_once_or_throws_first message cfg oi w :
  let r := sendDebug env message cfg oi w in
  after r = w ∧
  (debugMode cfg = false → r = mkResult (Returned tt) w []) ∧
  (debugThrows cfg oi = true → r = mkResult (Raised noSubcommand) w []) ∧
  (debugMode cfg = true → debugThrows cfg oi = false →
   out r = Returned tt ∧
   ∃ line, List.filter isConsoleLog (emitted r) = [ConsoleLog line]).
Proof.
  intros r. subst r. unfold debugThrows, sendDebug.
  destruct (debugMode cfg); cbn [negb andb]; [|by repeat split].
  assert (∀ line, List.filter isConsoleLog (mirrored env line cfg) = []) as Hmir.
  { intros line. unfold mirrored. destruct (clientReady env); [|done].
    by destruct (getTextChannel env (logChannel cfg)). }
  destruct oi as [i|]; unfold commandPrefix, isMessageComponent.
  - destruct (kind i), (subcommand i) as [sub|]; cbn [negb andb]; run;
      rewrite ?sendLogMessage_result; cbn [out after emitted negb andb];
      rewrite ?bool_decide_eq_true_2 by done;
      rewrite ?bool_decide_eq_false_2 by done;
      try (destruct (mirrorOutcome_cases env cfg) as [->|[e ->]]);
      cbn [out after emitted app List.filter isConsoleLog];
      rewrite ?List.filter_app, ?Hmir; repeat split; try done; by eauto.
  - run. rewrite sendLogMessage_result.
    destruct (mirrorOutcome_cases env cfg) as [->|[e ->]];
      cbn [out after emitted app List.filter isConsoleLog];
      rewrite ?List.filter_app, ?Hmir; repeat split; try done; by eauto.
Qed.

(** X5.  [sendReport] prints the report line, mirrors it, and only then
    answers the sender.  When the lookup of the log channel fails the sender
    gets no answer and the failure is thrown to the caller; a failing answer
    is thrown to the caller as well. *)
Theorem sendReport_replies_after_logging message cfg dmReceived w :
  let r := sendReport env message cfg dmReceived w in
  let line := reportLine env message in
  after r = w ∧
  match mirrorOutcome env cfg with
  | Raised e => r = mkResult (Raised e) w [ConsoleLog line]
  | _ =>
      emitted r =
        ConsoleLog line :: mirrored env line cfg ++
        [ChannelText (channelId (msgChannel message)) dmReceived
                     (bool_decide (sendError (msgChannel message) = None))] ∧
      out r = match sendError (msgChannel message) with
              | None => Returned tt
              | Some e => Raised e
              end
  end.
Proof.
  intros r line. subst r line. unfold sendReport, reportLine. run.
  rewrite sendLogMessage_result.
  destruct (mirrorOutcome_cases env cfg) as [Hm|[e Hm]]; rewrite Hm; run.
  2: { by rewrite (mirrored_when_lookup_fails _ _ e Hm). }
  destruct (sendError (msgChannel message)); run; by rewrite ?app_nil_r.
Qed.
End LogDebugMore.

(* ===================================================================== *)
(** * More on the update feed *)
(* ===================================================================== *)

Section FeedMore.
Import Eff BoarBot Obs.
Variable env : Env.

Lemma sentDescriptions_reported line cfg :
  sentDescriptions (LogDebug.reported env line cfg) = [].
Proof.
  unfold LogDebug.reported, LogDebug.mirrored.
  destruct (LogDebug.mirrorOutcome env cfg), (clientReady env); simpl;
    try done; by destruct (getTextChannel env (logChannel cfg)).
Qed.

(** Where the cursor stands after a poll: where it stood, or on the first
    item of the response, which then is new and merged. *)
Lemma sendUpdateInfo_frame gd w :
  ∃ w' evs,
    sendUpdateInfo env gd w = mkResult (Returned tt) w' evs ∧
    sameButCursor w w' ∧
    (w' = w ∧ announcements evs = [] ∧ List.filter isFileWritten evs = [] ∨
     ∃ gd0 pr rest,
       gd = Some gd0 ∧
       axiosGet env (pullLink (config w)) = inr (pr :: rest) ∧
       html_url pr ≠ lastURL gd0 ∧ merged_at pr ≠ None ∧
       writable (disk w) = true ∧
       githubFile (disk w') = Some (mkGitHubData (html_url pr)) ∧
       List.filter isFileWritten evs =
         [FileWritten (globalDataFolder (config w) +:+ githubFileName (config w))] ∧
       (announcements evs = [] ∨
        ∃ c msg, body pr = Some msg ∧
                 getTextChannel env (updatesChannel (config w)) = Found c ∧
                 announcements evs =
                   [ChannelEmbed (channelId c) (announcementOf (config w) pr msg)
                                 (bool_decide (sendError c = None))])).
Proof.
  assert (∀ line, announcements (LogDebug.reported env line (config w)) = [] ∧
                  List.filter isFileWritten (LogDebug.reported env line (config w)) = [])
    as Hrep by (intros; apply reported_no_announcement).
  unfold sendUpdateInfo. run.
  destruct gd as [gd|]; [|by eexists _, _; split; [done|]; split; [frame|]; left].
  run. destruct (axiosGet env (pullLink (config w))) as [e|[|pr rest]] eqn:Hget; run.
  - rewrite handleError_plain. run. eexists _, _. split; [done|].
    split; [frame|]. left. split; [done|].
    unfold announcements. cbn [List.filter isAnnouncement isFileWritten app].
    apply Hrep.
  - eexists _, _. split; [done|]. split; [frame|]. by left.
  - destruct (String.eqb_spec (html_url pr) (lastURL gd)) as [Heq|Hne]; cbn [negb andb].
    { eexists _, _. split; [done|]. split; [frame|]. by left. }
    destruct (decide (merged_at pr = None)) as [Hm|Hm].
    { rewrite bool_decide_eq_false_2 by (intros H; by apply H). run.
      eexists _, _. split; [done|]. split; [frame|]. by left. }
    rewrite bool_decide_eq_true_2 by done. run.
    destruct (writable (disk w)) eqn:Hw; run.
    2: { rewrite handleError_plain. run. eexists _, _. split; [done|].
         split; [frame|]. left. split; [done|].
         unfold announcements. cbn [List.filter isAnnouncement isFileWritten app].
         apply Hrep. }
    assert (∀ evs0 : list Event,
              announcements evs0 = [] → List.filter isFileWritten evs0 = [] →
              announcements
                (HttpGet (pullLink (config w))
                 :: FileWritten (globalDataFolder (config w) +:+ githubFileName (config w))
                 :: evs0) = [] ∧
              List.filter isFileWritten
                (HttpGet (pullLink (config w))
                 :: FileWritten (globalDataFolder (config w) +:+ githubFileName (config w))
                 :: evs0) =
              [FileWritten (globalDataFolder (config w) +:+ githubFileName (config w))])
      as Hquiet.
    { intros evs0 Ha Hf. unfold announcements in *.
      cbn [List.filter isAnnouncement isFileWritten]. by rewrite Ha, Hf. }
    destruct (getTextChannel env (updatesChannel (config w))) as [c| |e] eqn:Hch; run.
    + destruct (body pr) as [msg|] eqn:Hb; run.
      * destruct (sendError c) eqn:Hs; run.
        all: eexists _, _; (split; [done|]); (split; [frame|]); right.
        all: eexists gd, pr, rest; repeat (split; [done|]).
        all: right; exists c, msg; repeat (split; [done|]).
        all: unfold announcements; cbn [List.filter isAnnouncement isFileWritten].
        all: rewrite Hs; by case_bool_decide.
      * rewrite handleError_plain. run.
        eexists _, _; (split; [done|]); (split; [frame|]); right.
        eexists gd, pr, rest; repeat (split; [done|]).
        split; [|left]; apply Hquiet; apply Hrep.
    + destruct (body pr) as [msg|] eqn:Hb; run.
      * eexists _, _; (split; [done|]); (split; [frame|]); right.
        eexists gd, pr, rest; repeat (split; [done|]). by left.
      * rewrite handleError_plain. run.
        eexists _, _; (split; [done|]); (split; [frame|]); right.
        eexists gd, pr, rest; repeat (split; [done|]).
        split; [|left]; apply Hquiet; apply Hrep.
    + rewrite handleError_plain. run.
      eexists _, _; (split; [done|]); (split; [frame|]); right.
      eexists gd, pr, rest; repeat (split; [done|]).
      split; [|left]; apply Hquiet; apply Hrep.
Qed.



(** X8.  A second poll that gets the same answers as the first announces
    nothing and does not write the cursor file again. *)
Theorem second_poll_of_an_unchanged_feed_is_quiet w :
  let r1 := sendUpdateInfo env (githubFile (disk w)) w in
  let r2 := sendUpdateInfo env (githubFile (disk (after r1))) (after r1) in
  announcements (emitted r2) = [] ∧
  List.filter isFileWritten (emitted r2) = [] ∧
  githubFile (disk (after r2)) = githubFile (disk (after r1)).
Proof.
  intros r1 r2. subst r1 r2.
  destruct (sendUpdateInfo_frame (githubFile (disk w)) w)
    as (w1 & evs1 & Hr1 & Hf1 & Hc1).
  rewrite Hr1. cbn [after].
  destruct (sendUpdateInfo_frame (githubFile (disk w1)) w1)
    as (w2 & evs2 & Hr2 & Hf2 & Hc2).
  rewrite Hr2. cbn [after emitted].
  destruct Hc2 as [(-> & Ha & Hw)|(gd2 & pr2 & rest2 & Hgd2 & Hget2 & Hne2 & _ & _ & _ & Hfw2 & _)];
    [done|].
  exfalso.
  destruct Hf1 as ((Hcfg & _) & _).
  rewrite Hcfg in Hget2.
  destruct Hc1 as [(-> & _ & Hfw1)|(gd1 & pr1 & rest1 & _ & Hget1 & _ & _ & _ & Hfile1 & _)].
  - (* the first poll wrote nothing, so the second, the same call, cannot *)
    rewrite Hr1 in Hr2. injection Hr2 as <- <-. by rewrite Hfw1 in Hfw2.
  - rewrite Hfile1 in Hgd2. injection Hgd2 as <-.
    rewrite Hget1 in Hget2. injection Hget2 as <- <-. by apply Hne2.
Qed.

(** X9.  Without a stored cursor no request is made at all.  A failed request
    is reported through [handleError] and an empty listing ends the poll;
    either way the state is as before.  In every other case the request is
    the first action of the poll. *)
Theorem poll_without_cursor_or_items gd w :
  let r := sendUpdateInfo env gd w in
  let link := pullLink (config w) in
  match gd, axiosGet env link with
  | None, _ => r = mkResult (Returned tt) w []
  | Some _, inl e =>
      r = mkResult (Returned tt) w
            (HttpGet link ::
             LogDebug.reported env (LogDebug.caught env (LogDebug.shownStack e))
                               (config w))
  | Some _, inr [] => r = mkResult (Returned tt) w [HttpGet link]
  | Some _, inr (_ :: _) => hd_error (emitted r) = Some (HttpGet link)
  end.
Proof.
  intros r link. subst r link. unfold sendUpdateInfo. run.
  destruct gd as [gd|]; [|done]. run.
  destruct (axiosGet env (pullLink (config w))) as [e|[|pr rest]]; run.
  - rewrite handleError_plain. run. by rewrite ?app_nil_r.
  - done.
  - destruct (negb _ && _); [|done]. run.
    destruct (writable (disk w)); run; [|by rewrite handleError_plain].
    destruct (getTextChannel env (updatesChannel (config w))); run;
      rewrite ?handleError_plain; try done.
    all: destruct (body pr); run; rewrite ?handleError_plain; try done.
    by destruct (sendError c).
Qed.

End FeedMore.



(* ===================================================================== *)
(** * More on the poll tick *)
(* ===================================================================== *)

Section TickMore.
Import Eff BoarBot Obs.
Variable env : Env.

Lemma noReload_app l1 l2 : noReload (l1 ++ l2) = noReload l1 && noReload l2.
Proof. apply forallb_app. Qed.

Lemma noReload_update evs :
  forallb isUpdateInfoEvent evs = true → noReload evs = true.
Proof. intros H. by destruct (update_events_neutral evs H). Qed.

Lemma sendUpdateInfo_quiet gd w :
  ∃ w' evs,
    sendUpdateInfo env gd w = mkResult (Returned tt) w' evs ∧
    sameButCursor w w' ∧ noReload evs = true.
Proof.
  destruct (sendUpdateInfo_frame env gd w) as (w2 & evs & Hr & Hframe & _).
  destruct (sendUpdateInfo_settles env gd w)
    as (w2' & evs' & Hr' & _ & _ & _ & Hev).
  rewrite Hr in Hr'. injection Hr' as <- <-.
  exists w2, evs. split; [done|]. split; [done|]. by apply noReload_update.
Qed.

Ltac poll :=
  match goal with
  | |- context [sendUpdateInfo env ?g ?w0] =>
      let w2 := fresh "w2" in
      let evs := fresh "evs" in
      let Hf := fresh "Hframe" in
      let Hnr := fresh "Hquiet" in
      destruct (sendUpdateInfo_quiet g w0) as (w2 & evs & -> & Hf & Hnr);
      unfold sameButCursor, sameProcess in Hf;
      cbn [disk config configHash powSpawner configJson] in Hf;
      destruct Hf as ((? & ? & ?) & ? & ? & ? & ? & ?)
  end.

Ltac quiet Hquiet :=
  rewrite ?app_nil_r;
  cbn [noReload forallb isLoadConfig negb andb];
  rewrite ?forallb_app; cbn [forallb isLoadConfig negb andb];
  unfold noReload in Hquiet; by rewrite ?Hquiet.

Lemma pollTick_after w bytes :
  configJson (disk w) = Some bytes →
  let r := pollTick env w in
  configJson (disk (after r)) = Some bytes ∧
  configHash (after r) = Sha256.hexdigest bytes ∧
  (configHash w = Sha256.hexdigest bytes →
   noReload (emitted r) = true ∧ config (after r) = config w).
Proof.
  intros Hfile r. subst r. unfold pollTick, getQuestData. run.
  rewrite !(getConfigHash_result _ bytes) by done. run.
  destruct (String.eqb_spec (configHash w) (Sha256.hexdigest bytes)) as [Heq|Hne];
    cbn [negb]; run.
  - poll. destruct (getQuest env) as [e|q]; run; [|destruct (_ <? _)%Z; run].
    all: split; [congruence|]; split; [congruence|]; intros _; split; [|done].
    all: quiet Hquiet.
  - rewrite !(getConfigHash_result _ bytes) by done. run.
    unfold loadConfig. run. rewrite Hfile.
    destruct (configFromFile env bytes) as [e|c]; run.
    { by split; [|split]. }
    poll. destruct (getQuest env) as [e|q]; run; [|destruct (_ <? _)%Z; run].
    all: split; [congruence|]; split; [congruence|]; done.
Qed.


(** X12.  However a tick ended, the next tick over the same configuration
    file does not call [loadConfig]: a failed reload is not tried again. *)
Theorem unchanged_file_is_not_reloaded_by_the_next_tick w :
  let r1 := pollTick env w in
  let r2 := pollTick env (after r1) in
  noReload (emitted r2) = true ∧
  config (after r2) = config (after r1) ∧
  configHash (after r2) = configHash (after r1).
Proof.
  intros r1 r2. subst r1 r2.
  destruct (configJson (disk w)) as [bytes|] eqn:Hfile.
  - destruct (pollTick_after w bytes Hfile) as (Hfile1 & Hh1 & _).
    destruct (pollTick_after _ bytes Hfile1) as (_ & Hh2 & Hsame).
    destruct (Hsame Hh1) as [Hnr Hc]. split; [done|]. split; [done|]. congruence.
  - assert (pollTick env w =
            mkResult (Raised (Fs.absent "open 'config.json'")) w []) as Hr.
    { unfold pollTick, getConfigHash. run. by rewrite Hfile. }
    rewrite Hr. cbn [after]. by rewrite Hr.
Qed.

End TickMore.

(* ===================================================================== *)
(** * More on [onStart] *)
(* ===================================================================== *)

Section StartMore.
Import Eff BoarBot Obs.
Variable env : Env.

Lemma warmCache_frame w :
  ∃ o w' evs,
    warmCache env w = mkResult o w' evs ∧
    sameButUsers w w' ∧ configHash w' = configHash w ∧
    powSpawner w' = powSpawner w ∧
    (o = Returned tt ∨ ∃ e, o = Raised e).
Proof.
  unfold warmCache. run.
  destruct (userDir (disk w)) as [names|] eqn:Hdir.
  - rewrite bool_decide_eq_true_2 by done. run. rewrite Hdir. run.
    rewrite warmUserCache_result. run.
    eexists _, _, _. split; [done|]. split; [users|]. eauto.
  - rewrite bool_decide_eq_false_2 by (intros H; by apply H). run.
    destruct (writable (disk w)) eqn:Hw; run.
    + rewrite warmUserCache_result. run.
      eexists _, _, _. split; [done|]. split; [users|]. eauto.
    + eexists _, _, _. split; [done|]. split; [users|]. eauto.
Qed.

Lemma onStart_after w bytes :
  configJson (disk w) = Some bytes →
  let r := onStart env w in
  out r = Returned tt ∧ sameButUsers w (after r) ∧
  configHash (after r) = Sha256.hexdigest bytes ∧
  (∃ t, powSpawner (after r) = Some (mkSpawner t true)) ∧
  In (IntervalStarted 120000) (emitted r).
Proof.
  intros Hfile r. subst r. unfold onStart, getConfigHash. run.
  rewrite Hfile. run. rewrite armPowerups_result.
  destruct (getPowerups env) as [err|pd]; run.
  all: match goal with |- context [warmCache env ?w1] =>
    destruct (warmCache_frame w1)
      as (o & w' & evs & -> & Hf & Hh & Hs & [->|[e ->]])
  end; run; rewrite ?handleError_plain; run.
  all: unfold sameButUsers in Hf;
       cbn [disk config configHash powSpawner] in Hf, Hh, Hs;
       destruct Hf as (? & ? & ? & ? & ? & ?).
  all: split; [done|]; split; [users|]; split; [done|]; split; [by eexists|].
  all: cbn [In]; tauto.
Qed.



(** X15.  The first tick after [onStart] does not call [loadConfig] and keeps
    the configuration. *)
Theorem first_tick_after_start_does_not_reload w :
  let r1 := onStart env w in
  let r2 := pollTick env (after r1) in
  noReload (emitted r2) = true ∧ config (after r2) = config w.
Proof.
  intros r1 r2. subst r1 r2.
  destruct (configJson (disk w)) as [bytes|] eqn:Hfile.
  - destruct (onStart_after w bytes Hfile) as (_ & Hf & Hh & _).
    destruct Hf as (Hc & Hj & _).
    assert (configJson (disk (after (onStart env w))) = Some bytes) as Hfile1
      by congruence.
    destruct (pollTick_after env _ bytes Hfile1) as (_ & _ & Hsame).
    destruct (Hsame Hh) as [Hnr Hc2]. split; [done|]. congruence.
  - assert (onStart env w =
            mkResult (Returned tt) w
              ([Logged "Successfully logged in! Bot online!" false;
                ListenerAdded "rateLimited"; CronStarted "0 0 * * *"] ++
               LogDebug.reported env
                 (LogDebug.caught env
                    (LogDebug.shownStack (Fs.absent "open 'config.json'")))
                 (config w))) as Hr.
    { unfold onStart, getConfigHash. run. rewrite Hfile. run.
      rewrite handleError_plain. by run. }
    rewrite Hr. cbn [after]. unfold pollTick, getConfigHash. run.
    by rewrite Hfile.
Qed.




End StartMore.

(* ===================================================================== *)
(** * More on the guild sweep *)
(* ===================================================================== *)

Section GuildMore.
Import Eff BoarBot Obs.
Variable env : Env.

Lemma filter_sublist {A} (f : A → bool) (l : list A) :
  List.filter f l `sublist_of` l.
Proof.
  induction l as [|x l IH]; [done|]. simpl.
  destruct (f x); [by apply sublist_skip | by apply sublist_cons].
Qed.

Lemma readable_verdict c :
  readable c = true → verdict c = Some (Js.truthy (flag c)).
Proof. by destruct c as [|[]]. Qed.

Lemma readable_isKept e : readable (snd e) = true → isKept e = finished e.
Proof.
  intros H. unfold isKept, finished. rewrite (readable_verdict _ H).
  destruct (Js.truthy (flag (snd e))); by case_bool_decide.
Qed.

Lemma readable_verdicts entries :
  Forall (fun e => readable (snd e) = true) entries →
  Forall (fun e => is_Some (verdict (snd e))) entries ∧
  List.filter isKept entries = List.filter finished entries ∧
  ∀ folder,
    flat_map (sweepEvents folder) entries =
    flat_map (finishedEvents folder) entries.
Proof.
  induction 1 as [|e entries He _ (IH1 & IH2 & IH3)]; [done|].
  split; [|split].
  - apply Forall_cons. split; [|done]. rewrite (readable_verdict _ He). by eexists.
  - cbn [List.filter]. by rewrite IH2, (readable_isKept _ He).
  - intros folder. cbn [flat_map]. rewrite IH3. unfold sweepEvents, finishedEvents.
    by rewrite (readable_isKept _ He).
Qed.

Lemma finished_twice entries :
  List.filter finished (List.filter finished entries) =
  List.filter finished entries.
Proof.
  induction entries as [|e entries IH]; [done|]. cbn [List.filter].
  destruct (finished e) eqn:He; [|done]. cbn [List.filter]. by rewrite He, IH.
Qed.

Lemma finishedEvents_kept folder entries :
  flat_map (finishedEvents folder) (List.filter finished entries) = [].
Proof.
  induction entries as [|e entries IH]; [done|]. cbn [List.filter].
  destruct (finished e) eqn:He; [|done]. cbn [flat_map].
  unfold finishedEvents at 1. by rewrite He, IH.
Qed.

Lemma thinned_refl w : thinned w w.
Proof. by repeat split. Qed.

Lemma thinned_trans w1 w2 w3 : thinned w1 w2 → thinned w2 w3 → thinned w1 w3.
Proof.
  unfold thinned, sameButGuilds, sameProcess.
  intros (((?&?&?)&?&?&?&?)&?&?&?) (((?&?&?)&?&?&?&?)&?&?&?).
  repeat split; try congruence; [by etrans | tauto].
Qed.

Lemma sweepFile_thins folder n w :
  let r := sweepFile folder n w in
  thinned w (after r) ∧ (∀ c, out r ≠ Exited c) ∧
  (out r ≠ Returned tt → after r = w).
Proof.
  unfold sweepFile. run.
  destruct (guildDir (disk w)) as [entries|] eqn:Hdir; run;
    [|by split; [apply thinned_refl|]].
  destruct (Fs.lookupFile n entries) as [[|v]|] eqn:Hl; run;
    try (by split; [apply thinned_refl|]).
  destruct (Js.property "fullySetup" v) as [e|x]; run;
    [by split; [apply thinned_refl|]|].
  destruct (Js.truthy x); run; [by split; [apply thinned_refl|]|].
  rewrite Hdir, Hl. destruct (writable (disk w)) eqn:Hw; run;
    [|by split; [apply thinned_refl|]].
  split; [|done]. unfold thinned, guildFiles. rewrite Hdir. cbn.
  split; [frame|]. split; [done|]. split; [apply filter_sublist | by eexists].
Qed.

Lemma sweep_thins folder files : ∀ w,
  let r := for_each files (sweepFile folder) w in
  thinned w (after r) ∧ (∀ c, out r ≠ Exited c).
Proof.
  induction files as [|n files IH]; intros w; [by split; [apply thinned_refl|]|].
  cbn zeta. rewrite for_each_cons.
  destruct (sweepFile_thins folder n w) as (Hstep & Hex & _).
  destruct (sweepFile folder n w) as [[[]|e|c] w1 ev1]; cbn [out after] in *.
  - destruct (IH w1) as [Hrest Hex'].
    destruct (for_each files (sweepFile folder) w1) as [o w2 ev2].
    cbn [out after] in *. split; [by eapply thinned_trans|done].
  - done.
  - by destruct (Hex c).
Qed.

Lemma thinned_same w w' :
  thinned w w' → guildDir (disk w') = guildDir (disk w) → w' = w.
Proof.
  unfold thinned, sameButGuilds, sameProcess.
  intros (((?&?&?)&?&?&?&?)&?&?&?) ?.
  destruct w as [[] ? ? ?], w' as [[] ? ? ?]. cbn in *. congruence.
Qed.

Lemma NoDup_names_filter (f : string * FileContent → bool) entries :
  List.NoDup (List.map fst entries) →
  List.NoDup (List.map fst (List.filter f entries)).
Proof.
  induction entries as [|e entries IH]; [done|]. cbn [List.map List.filter].
  intros Hnd. apply List.NoDup_cons_iff in Hnd as [Hn Hnd].
  destruct (f e); [|by apply IH]. cbn [List.map]. apply List.NoDup_cons; [|by apply IH].
  intros Hin. apply Hn. apply in_map_iff in Hin as (x & <- & Hx).
  apply in_map_iff. exists x. split; [done|]. by apply List.filter_In in Hx as [Hx _].
Qed.

(** What the sweep of a readable folder does. *)
Lemma fixGuildData_readable w entries :
  guildDir (disk w) = Some entries →
  databaseDir (disk w) = true →
  writable (disk w) = true →
  List.NoDup (List.map fst entries) →
  Forall (fun e => readable (snd e) = true) entries →
  ∃ w',
    fixGuildData env w =
      mkResult (Returned tt) w'
        (flat_map (finishedEvents
                     (databaseFolder (config w) +:+ guildDataFolder (config w)))
                  entries ++ [Logged "Guild data fixed!" false]) ∧
    guildDir (disk w') = Some (List.filter finished entries) ∧
    thinned w w'.
Proof.
  intros Hdir Hdb Hw Hnd Hall.
  destruct (readable_verdicts _ Hall) as (Hv & Hfilter & Hevents).
  unfold fixGuildData. run. rewrite Hdb, Hdir.
  rewrite bool_decide_eq_true_2 by done. run. rewrite Hdir. run.
  pose proof (sweep_thins
                (databaseFolder (config w) +:+ guildDataFolder (config w))
                (List.map fst entries) w) as [Hthin _].
  destruct (sweep_stretch
              (databaseFolder (config w) +:+ guildDataFolder (config w))
              entries [] [] w) as (w' & Hrun & Hdir' & Hw' & Hc');
    rewrite ?app_nil_r; try done.
  rewrite Hrun in Hthin |- *. cbn [after] in Hthin.
  run. exists w'. rewrite Hevents. split; [done|].
  cbn [app] in Hdir'. rewrite app_nil_r, Hfilter in Hdir'. done.
Qed.

(** X17.  The sweep decides by the truthiness of [fullySetup]: in a writable
    folder of distinct files none of which is malformed or [null], exactly
    the files whose [fullySetup] is truthy remain, each deletion is followed
    by its log line, in the order of the folder, and the closing line is
    logged last. *)
Theorem sweep_decides_by_truthiness w entries :
  guildDir (disk w) = Some entries →
  databaseDir (disk w) = true →
  writable (disk w) = true →
  List.NoDup (List.map fst entries) →
  Forall (fun e => readable (snd e) = true) entries →
  let r := fixGuildData env w in
  let folder := databaseFolder (config w) +:+ guildDataFolder (config w) in
  out r = Returned tt ∧
  guildFiles (after r) = List.filter finished entries ∧
  emitted r =
    flat_map (finishedEvents folder) entries ++
    [Logged "Guild data fixed!" false].
Proof.
  intros Hdir Hdb Hw Hnd Hall r folder. subst r folder.
  destruct (fixGuildData_readable w entries) as (w' & -> & Hdir' & _); try done.
  unfold guildFiles. cbn [out after emitted]. by rewrite Hdir'.
Qed.

(** X18.  On such a folder a second sweep changes nothing and only logs its
    closing line. *)
Theorem second_sweep_changes_nothing w entries :
  guildDir (disk w) = Some entries →
  databaseDir (disk w) = true →
  writable (disk w) = true →
  List.NoDup (List.map fst entries) →
  Forall (fun e => readable (snd e) = true) entries →
  let r := fixGuildData env w in
  fixGuildData env (after r) =
  mkResult (Returned tt) (after r) [Logged "Guild data fixed!" false].
Proof.
  intros Hdir Hdb Hw Hnd Hall r. subst r.
  destruct (fixGuildData_readable w entries) as (w1 & -> & Hdir1 & Hthin1);
    try done.
  cbn [after].
  pose proof Hthin1 as (((_&_&_)&_&_&_&Hw1)&Hdb1&_&_).
  destruct (fixGuildData_readable w1 (List.filter finished entries))
    as (w2 & -> & Hdir2 & Hthin2); try done; try congruence.
  - by apply NoDup_names_filter.
  - apply List.Forall_forall. intros e [He _]%List.filter_In.
    rewrite List.Forall_forall in Hall. by apply Hall.
  - rewrite finishedEvents_kept. cbn [app]. f_equal.
    apply thinned_same; [done|]. by rewrite Hdir2, finished_twice, Hdir1.
Qed.

Ltac loop :=
  match goal with
  | |- context [for_each ?fs (sweepFile ?folder) ?w1] =>
      let Hs := fresh "Hs" in
      let Hd := fresh "Hd" in
      let Hl := fresh "Hl" in
      let Hk := fresh "Hk" in
      destruct (sweep_thins folder fs w1) as [(Hs & Hd & Hl & Hk) _];
      destruct (for_each fs (sweepFile folder) w1) as [[[]|?|?] ? ?];
      unfold sameButGuilds, sameProcess, guildFiles in *;
      cbn [out after emitted disk config configHash powSpawner configJson
           databaseDir guildDir userDir githubFile writable default] in *;
      destruct Hs as ((?&?&?)&?&?&?&?)
  end.

(** X19.  Whatever the disk holds, [fixGuildData] touches nothing but the
    guild data folder and the database folder: the files left in the guild
    folder are files that were there, unchanged and in their order, and
    after a normal return both folders exist. *)
Theorem sweep_only_ever_removes_guild_files w :
  let r := fixGuildData env w in
  sameButGuilds w (after r) ∧
  guildFiles (after r) `sublist_of` guildFiles w ∧
  (out r = Returned tt →
   databaseDir (disk (after r)) = true ∧ is_Some (guildDir (disk (after r)))).
Proof.
  intros r. subst r. unfold fixGuildData. run.
  destruct (databaseDir (disk w)) eqn:Hdb; run.
  - destruct (guildDir (disk w)) as [entries|] eqn:Hdir.
    + rewrite bool_decide_eq_true_2 by done. run. rewrite Hdir. run.
      loop; run.
      all: split; [repeat split; congruence|]; split; [by rewrite Hdir in *|].
      all: try done.
      intros _. split; [congruence|]. apply Hk. by rewrite Hdir.
    + rewrite bool_decide_eq_false_2 by (intros H; by apply H). run.
      destruct (writable (disk w)) eqn:Hw; run.
      * loop; run.
        all: split; [repeat split; congruence|]; split; [by rewrite Hdir in *|].
        all: try done.
        intros _. split; [congruence|]. by apply Hk.
      * rewrite handleError_plain. run. unfold sameButGuilds, sameProcess.
        by repeat split.
  - destruct (writable (disk w)) eqn:Hw; run.
    2: { rewrite handleError_plain. run. unfold sameButGuilds, sameProcess.
         by repeat split. }
    destruct (guildDir (disk w)) as [entries|] eqn:Hdir.
    + rewrite bool_decide_eq_true_2 by done. run.
      loop; run.
      all: split; [repeat split; congruence|]; split; [by rewrite Hdir in *|].
      all: try done.
      intros _. split; [congruence|]. by apply Hk.
    + rewrite bool_decide_eq_false_2 by (intros H; by apply H). run.
      loop; run.
      all: split; [repeat split; congruence|]; split; [by rewrite Hdir in *|].
      all: try done.
      intros _. split; [congruence|]. by apply Hk.
Qed.

(** X20.  With the guild data folder missing: on a writable disk the missing
    folders are created, nothing is deleted and the sweep returns; on a
    read-only disk the failure of [mkdir] is printed and the process exits
    with code -1, the disk untouched and the closing line never logged. *)
Theorem missing_guild_folder_is_created_or_fatal w :
  guildDir (disk w) = None →
  let r := fixGuildData env w in
  let database := databaseFolder (config w) in
  if writable (disk w) then
    out r = Returned tt ∧
    databaseDir (disk (after r)) = true ∧
    guildDir (disk (after r)) = Some [] ∧
    emitted r =
      (if databaseDir (disk w) then [] else [DirCreated database]) ++
      [DirCreated (database +:+ guildDataFolder (config w));
       Logged "Guild data fixed!" false]
  else
    out r = Exited (-1) ∧ after r = w ∧
    ∃ rest,
      emitted r =
        ConsoleLog (LogDebug.caught env
                      (LogDebug.shownStack (Fs.refused "mkdir"))) :: rest ∧
      forallb LogDebug.isReportEvent rest = true.
Proof.
  intros Hdir r database. subst r database. unfold fixGuildData. run.
  destruct (writable (disk w)) eqn:Hw, (databaseDir (disk w)) eqn:Hdb; run;
    rewrite ?Hdir, ?Hw; run.
  all: rewrite ?bool_decide_eq_false_2 by (intros H; by apply H); run.
  all: rewrite ?Hw; run; try done.
  all: rewrite handleError_plain; run; rewrite app_nil_r.
  all: split; [done|]; split; [done|].
  all: pose proof (reported_events env
         (LogDebug.caught env (LogDebug.shownStack (Fs.refused "mkdir")))
         (config w)) as Hev.
  all: unfold LogDebug.reported in *; cbn [forallb] in Hev.
  all: eexists; split; [reflexivity|].
  all: by apply andb_true_iff in Hev as [_ Hev].
Qed.

End GuildMore.

Lemma sweep_decides_by_truthiness_witness :
  let env := Sample.env Sample.allChannels [] (inr (mkPowerupData 0))
               (fun _ => FetchResolves) 0%Z in
  let counted := Parsed (Js.JObj [("fullySetup", Js.JNum 1)]) in
  let w := Obs.withGuildDir
             [("A.json", Parsed (Js.JObj [])); ("B.json", counted);
              ("C.json", Parsed (Js.JArr []))] Sample.world in
  Obs.guildFiles (Eff.after (BoarBot.fixGuildData env w)) = [("B.json", counted)].
Proof.
  intros env counted w.
  destruct (sweep_decides_by_truthiness env w
              [("A.json", Parsed (Js.JObj [])); ("B.json", counted);
               ("C.json", Parsed (Js.JArr []))])
    as (_ & Hd & _); try done.
  - repeat constructor; simpl; intros H; repeat destruct H as [H|H]; done.
  - by repeat constructor.
Defined.

Lemma second_sweep_changes_nothing_witness :
  let env := Sample.env Sample.allChannels [] (inr (mkPowerupData 0))
               (fun _ => FetchResolves) 0%Z in
  let r := BoarBot.fixGuildData env Sample.world in
  Eff.emitted (BoarBot.fixGuildData env (Eff.after r)) =
  [Logged "Guild data fixed!" false].
Proof.
  intros env r. subst r.
  rewrite (second_sweep_changes_nothing env Sample.world
             [("A.json", Sample.guildA); ("B.json", Sample.guildB)]); try done.
  - repeat constructor; simpl; intros H; repeat destruct H as [H|H]; done.
  - by repeat constructor.
Defined.

Lemma missing_guild_folder_is_created_or_fatal_witness :
  let env := Sample.env Sample.allChannels [] (inr (mkPowerupData 0))
               (fun _ => FetchResolves) 0%Z in
  let w := mkWorld (mkDisk (Some Sample.configBytes) false None None None true)
                   Sample.cfg EmptyString None in
  let r := BoarBot.fixGuildData env w in
  guildDir (disk (Eff.after r)) = Some [] ∧
  Eff.emitted r =
    [DirCreated "database/"; DirCreated "database/guilds/";
     Logged "Guild data fixed!" false].
Proof.
  intros env w r.
  destruct (missing_guild_folder_is_created_or_fatal env w eq_refl)
    as (_ & _ & Hd & He).
  split; [exact Hd | exact He].
Defined.

(* ===================================================================== *)
(** * Login and the rate-limit listener *)
(* ===================================================================== *)

Section LoginMore.
Import Eff BoarBot Obs.
Variable env : Env.

(** X21.  [login] leaves the state alone.  A successful login only logs; a
    failed one reports a fixed message, whatever the failure was, and then
    exits with code -1. *)
Theorem failed_login_reports_a_fixed_message_and_exits attempt w :
  let r := login env attempt w in
  after r = w ∧
  match attempt with
  | None => r = mkResult (Returned tt) w [Logged "Logging in..." false]
  | Some e =>
      out r = Exited (-1) ∧
      emitted r =
        Logged "Logging in..." false ::
        LogDebug.reported env
          (LogDebug.caught env
             (Some "Client wasn't initialized or you used an invalid token!"))
          (config w)
  end.
Proof.
  intros r. subst r. unfold login. run. destruct attempt as [e|]; run; [|done].
  rewrite handleError_plain. run. by rewrite app_nil_r.
Qed.

Lemma mirrorFlags_app l1 l2 :
  mirrorFlags (l1 ++ l2) = mirrorFlags l1 ++ mirrorFlags l2.
Proof.
  induction l1 as [|e l1 IH]; [done|]. destruct e; simpl; by rewrite ?IH.
Qed.

(** X22.  The rate-limit listener logs at most once per firing, and a firing
    that comes at most 30 seconds after the last stamp never asks for its
    line to be mirrored. *)
Theorem rate_limit_log_is_not_mirrored_within_30_seconds lastHit hits w :
  closelySpaced lastHit hits →
  Forall (fun mirror => mirror = false)
         (mirrorFlags (rateLimitedAll lastHit hits w)) ∧
  length (mirrorFlags (rateLimitedAll lastHit hits w)) ≤ length hits.
Proof.
  revert lastHit w. induction hits as [|hit hits IH]; intros lastHit w; [done|].
  cbn [closelySpaced rateLimitedAll]. intros [Hclose Hrest].
  apply Z.ltb_ge in Hclose.
  unfold lastHitAfter, rateLimited. rewrite Hclose. run.
  destruct (relisted hit) as [e|files]; run.
  - destruct (IH lastHit w Hrest) as [IH1 IH2]. split; [done|]. cbn [length]. lia.
  - destruct (IH (stamped hit) w Hrest) as [IH1 IH2].
    cbn [mirrorFlags length]. split; [by apply List.Forall_cons | lia].
Qed.

End LoginMore.

Lemma rate_limit_log_is_not_mirrored_within_30_seconds_witness :
  let hits := [BoarBot.mkRateHit 1000 1001 5 (inr []) (inr ["1.json"]);
               BoarBot.mkRateHit 20000 20001 5 (inr []) (inr [])] in
  Forall (fun mirror => mirror = false)
         (Obs.mirrorFlags (BoarBot.rateLimitedAll 0 hits Sample.world)).
Proof.
  intros hits.
  refine (proj1 (rate_limit_log_is_not_mirrored_within_30_seconds 0 hits
                   Sample.world _)).
  simpl. lia.
Defined.
